(** * dbt-py: a shim around the dbt command line

    A shallow embedding of [dbt_py/main.py].  The Python process is a
    [world] (environment variables, importable sources, [sys.modules],
    standard output, the memo of [functools.cache], the binding of
    [dbt.context.base.get_context_modules]) threaded through a small
    state-and-exception monad.  The three functions of the file,
    [_import_submodules], [_get_context_modules_shim] and [main], are
    translated statement by statement. *)

From Stdlib Require Import ZArith String Ascii List Lia.
From stdpp Require Import base option gmap strings list.

Local Open Scope string_scope.
Local Open Scope list_scope.
Local Open Scope nat_scope.

(** ** Strings *)

(** [repr] of a [str] without quotes in it, as the [!r] conversion of an
    f-string prints it. *)
Definition repr (s : string) : string := "'" +:+ s +:+ "'".

(** [needle in haystack] on [str]. *)
Fixpoint contains (needle haystack : string) : bool :=
  String.prefix needle haystack ||
  match haystack with
  | EmptyString => false
  | String _ rest => contains needle rest
  end.

(** [s.startswith(".")]. *)
Definition startswith_dot (s : string) : bool :=
  match s with
  | String c _ => Ascii.eqb c "."
  | EmptyString => false
  end.

(** [s.rpartition(".")]: [Some (head, tail)] around the last dot, [None]
    when [s] has no dot (Python then returns [("", "", s)]). *)
Fixpoint rpartition_dot (s : string) : option (string * string) :=
  match s with
  | EmptyString => None
  | String c rest =>
      match rpartition_dot rest with
      | Some (head, tail) => Some (String c head, tail)
      | None => if Ascii.eqb c "." then Some (EmptyString, rest) else None
      end
  end.

(** [name.rpartition(".")[0]] and [name.rpartition(".")[2]]. *)
Definition rpartition_head (name : string) : string :=
  match rpartition_dot name with Some (head, _) => head | None => "" end.

Definition rpartition_tail (name : string) : string :=
  match rpartition_dot name with Some (_, tail) => tail | None => name end.

(** A string without a dot: the name of one file or directory. *)
Fixpoint no_dot (s : string) : bool :=
  match s with
  | EmptyString => true
  | String c rest => negb (Ascii.eqb c ".") && no_dot rest
  end.

(** ** Exceptions and outcomes *)

(** The exceptions the shim tells apart.  [OtherException cls msg] is an
    instance of any class [cls] that does not derive from
    [ModuleNotFoundError] ([ImportError], [ValueError], [SyntaxError],
    ...); the class [ImportError] stands for itself and for the classes
    that derive from it.  [SystemExit] carries the exit code. *)
Inductive exn : Type :=
| ModuleNotFoundError (msg : string)
| OtherException (cls : string) (msg : string)
| SystemExit (code : Z).

(** [isinstance(e, ModuleNotFoundError)], the test of the [except] clause. *)
Definition is_ModuleNotFoundError (e : exn) : bool :=
  match e with ModuleNotFoundError _ => true | _ => false end.

(** [isinstance(e, ImportError)], the test of the [except] clause of
    [pkgutil.walk_packages]; [ModuleNotFoundError] derives from
    [ImportError]. *)
Definition is_ImportError (e : exn) : bool :=
  match e with
  | ModuleNotFoundError _ => true
  | OtherException cls _ => String.eqb cls "ImportError"
  | SystemExit _ => false
  end.

(** [str(e)]. *)
Definition exn_text (e : exn) : string :=
  match e with
  | ModuleNotFoundError msg | OtherException _ msg => msg
  | SystemExit _ => ""
  end.

(** How a call ends: it returns, it raises, or the model ran out of the
    recursion budget it was given. *)
Inductive outcome (A : Type) : Type :=
| Return (a : A)
| Raise (e : exn)
| Exhausted.
Arguments Return {A} a.
Arguments Raise {A} e.
Arguments Exhausted {A}.

(** ** The importable sources and the module objects *)

(** What the import system finds on disk.  [body] is how running the
    file's top-level code ends: [None] when it runs to its end, [Some e]
    when it raises [e].  The model is of sources whose top-level code
    binds names and does no more: what such code prints, writes to the
    environment or imports on its own is outside it, and no property
    below is about that.  A package is a directory with an
    [__init__.py] and the sources inside it, in the order in which
    [pkgutil.iter_modules] lists them (sorted by file name). *)
#[warnings="-register-all"]
Inductive source : Type :=
| SourceModule (name : string) (body : option exn)
| SourcePackage (name : string) (body : option exn) (children : list source).

Definition source_name (t : source) : string :=
  match t with SourceModule n _ | SourcePackage n _ _ => n end.

Definition source_body (t : source) : option exn :=
  match t with SourceModule _ b | SourcePackage _ b _ => b end.

Definition source_path (t : source) : option (list source) :=
  match t with SourceModule _ _ => None | SourcePackage _ _ cs => Some cs end.

Definition is_pkg (t : source) : bool :=
  match t with SourceModule _ _ => false | SourcePackage _ _ _ => true end.

(** A module object: [__name__] and, for a package only, [__path__]
    (here: the sources found in the package's directory). *)
Record module : Type := Module_ {
  mod_name : string;
  mod_path : option (list source)
}.

(** The module object the loader builds for source [t] under the dotted
    name [full_name]. *)
Definition module_of (full_name : string) (t : source) : module :=
  {| mod_name := full_name; mod_path := source_path t |}.

(** What the host's registry holds: the host's own module contexts
    (opaque, told apart by a tag) and the module the shim adds. *)
Inductive value : Type :=
| VHost (tag : string)
| VModule (m : module).

(** ** The process *)

(** Which function [dbt.context.base.get_context_modules] is bound to. *)
Inductive hook_impl : Type := HostDefault | Shim.

(** What the shim does that an observer can order in time. *)
Inductive event : Type :=
| EvImport (name : string)        (* a call [importlib.import_module(name)] *)
| EvSetItem (key : string)        (* [modules[key] = ...] *)
| EvPrint (line : string).        (* [print(line)] *)

Record world : Type := World {
  environ : gmap string string;            (* os.environ *)
  sys_path : list source;                  (* top-level importable sources *)
  sys_modules : gmap string module;        (* sys.modules *)
  stdout : list string;                    (* lines printed so far *)
  journal : list event;                    (* calls made so far, oldest first *)
  shim_cache : option (gmap string value); (* memo of functools.cache *)
  hook : hook_impl;                        (* dbt.context.base.get_context_modules *)
  sys_argv : list string                   (* sys.argv *)
}.

Definition set_environ (env : gmap string string) (w : world) : world :=
  World env (sys_path w) (sys_modules w) (stdout w) (journal w)
    (shim_cache w) (hook w) (sys_argv w).

Definition set_sys_modules (sm : gmap string module) (w : world) : world :=
  World (environ w) (sys_path w) sm (stdout w) (journal w)
    (shim_cache w) (hook w) (sys_argv w).

Definition set_stdout (out : list string) (w : world) : world :=
  World (environ w) (sys_path w) (sys_modules w) out (journal w)
    (shim_cache w) (hook w) (sys_argv w).

Definition set_journal (j : list event) (w : world) : world :=
  World (environ w) (sys_path w) (sys_modules w) (stdout w) j
    (shim_cache w) (hook w) (sys_argv w).

Definition set_shim_cache (c : option (gmap string value)) (w : world) : world :=
  World (environ w) (sys_path w) (sys_modules w) (stdout w) (journal w)
    c (hook w) (sys_argv w).

Definition set_hook (h : hook_impl) (w : world) : world :=
  World (environ w) (sys_path w) (sys_modules w) (stdout w) (journal w)
    (shim_cache w) h (sys_argv w).

(** ** The monad of Python statements

    A statement maps the world to an outcome and the world it leaves;
    an exception keeps the effects made before it was raised. *)
Definition M (A : Type) : Type := world → outcome A * world.

Definition ret {A} (a : A) : M A := λ w, (Return a, w).

Definition raise {A} (e : exn) : M A := λ w, (Raise e, w).

Definition exhausted {A} : M A := λ w, (Exhausted, w).

Definition bind {A B} (c : M A) (k : A → M B) : M B := λ w,
  match c w with
  | (Return a, w') => k a w'
  | (Raise e, w') => (Raise e, w')
  | (Exhausted, w') => (Exhausted, w')
  end.

Notation "'do' x <- c ; k" := (bind c (λ x, k))
  (at level 10, x name, c at level 100, k at level 200, only parsing).
Notation "'do_' c ; k" := (bind c (λ _, k))
  (at level 10, c at level 100, k at level 200, only parsing).

(** [try: body except ModuleNotFoundError: handler]. *)
Definition try_except_ModuleNotFoundError {A} (body : M A) (handler : M A) : M A := λ w,
  match body w with
  | (Raise e, w') => if is_ModuleNotFoundError e then handler w' else (Raise e, w')
  | other => other
  end.

(** [for x in xs: acc = step(acc, x)], left to right, stopping at the
    first exception. *)
Fixpoint for_each {A B} (step : B → A → M B) (acc : B) (xs : list A) : M B :=
  match xs with
  | [] => ret acc
  | x :: rest => do acc' <- step acc x; for_each step acc' rest
  end.

Definition log (ev : event) : M unit := λ w,
  (Return tt, set_journal (journal w ++ [ev]) w).

(** [print(line)]. *)
Definition print (line : string) : M unit := λ w,
  (Return tt, set_journal (journal w ++ [EvPrint line]) (set_stdout (stdout w ++ [line]) w)).

(** [os.environ.get(key) or default]: [None] and the empty string are
    both falsy, so both give [default]. *)
Definition environ_get_or (key default : string) (w : world) : string :=
  match environ w !! key with
  | None => default
  | Some v => if String.eqb v "" then default else v
  end.

(** ** The import system

    [importlib.import_module(name)] as the standard library runs it for
    an absolute name: a hit in [sys.modules] is returned as it is;
    otherwise the parent named by [name.rpartition(".")[0]] is imported
    first when it is not in [sys.modules], the last component is looked
    up on the parent's [__path__] (on [sys.path] for a top-level name),
    and the source found is loaded: its body runs, and the module enters
    [sys.modules] when the body ran to its end. *)

(** The finder: the first source called [name] on [path]. *)
Definition find_source (name : string) (path : list source) : option source :=
  List.find (λ t, String.eqb (source_name t) name) path.

(** The loader: run the top-level code of [t] as module [full_name].
    The import system enters the module in [sys.modules] before its
    code runs and takes it out again when the code raises, so an
    exception leaves [sys.modules] as it was and a run to the end
    leaves the module in it.  The code itself binds names and does no
    more (see [source]). *)
Definition load (full_name : string) (t : source) : M module := λ w,
  match source_body t with
  | Some e => (Raise e, w)
  | None =>
      let m := module_of full_name t in
      (Return m, set_sys_modules (<[full_name := m]> (sys_modules w)) w)
  end.

Definition no_module_named (name : string) : string :=
  "No module named " +:+ repr name.

Definition not_a_package (name parent : string) : string :=
  no_module_named name +:+ "; " +:+ repr parent +:+ " is not a package".

(** [_find_and_load]; [fuel] bounds the chain of parents, which the
    length of [name] covers (see [find_and_load_not_exhausted]). *)
Fixpoint _find_and_load (fuel : nat) (name : string) : M module := λ w,
  match sys_modules w !! name with
  | Some m => (Return m, w)
  | None =>
      match fuel with
      | 0 => (Exhausted, w)
      | S fuel' =>
          let parent := rpartition_head name in
          if String.eqb parent "" then
            match find_source name (sys_path w) with
            | None => (Raise (ModuleNotFoundError (no_module_named name)), w)
            | Some t => load name t w
            end
          else
            (do _ <- (λ w1, match sys_modules w1 !! parent with
                            | Some m => (Return m, w1)
                            | None => _find_and_load fuel' parent w1
                            end);
             λ w2,
               match sys_modules w2 !! name with
               | Some m => (Return m, w2)
               | None =>
                   match sys_modules w2 !! parent with
                   | None => (Raise (OtherException "KeyError" (repr parent)), w2)
                   | Some parent_module =>
                       match mod_path parent_module with
                       | None =>
                           (Raise (ModuleNotFoundError (not_a_package name parent)), w2)
                       | Some path =>
                           match find_source (rpartition_tail name) path with
                           | None =>
                               (Raise (ModuleNotFoundError (no_module_named name)), w2)
                           | Some t => load name t w2
                           end
                       end
                   end
               end) w
      end
  end.

(** [importlib.import_module(name)]: a relative name without a package
    is a [TypeError], the empty name a [ValueError]. *)
Definition import_module (name : string) : M module :=
  do_ log (EvImport name);
  if startswith_dot name then
    raise (OtherException "TypeError"
      ("the 'package' argument is required to perform a relative import for "
         +:+ repr name))
  else if String.eqb name "" then
    raise (OtherException "ValueError" "Empty module name")
  else _find_and_load (String.length name) name.

(** [__import__(name)] as [pkgutil] calls it, with an absolute name and
    no [fromlist]: the import system is run for [name]. *)
Definition builtin_import (name : string) : M module :=
  if String.eqb name "" then
    raise (OtherException "ValueError" "Empty module name")
  else _find_and_load (String.length name) name.

(** ** [pkgutil.walk_packages]

    [for info in pkgutil.walk_packages(path, prefix): acc = body(acc, info)].
    The generator and the body of the loop take turns.  An entry of
    [path] is yielded under the name [prefix + name] and the body runs
    on it.  When the generator is resumed and the entry was a package,
    it runs [__import__] on the name it yielded: an [ImportError] of
    that import is dropped ([onerror] is [None]), any other exception
    leaves the generator, and after an import that returned the
    generator yields from [walk_packages] on the [__path__] of the
    module now in [sys.modules] under that name, with that name and a
    dot as prefix.  A [__path__] is one directory here, so the filter
    of the directories already seen keeps it whole.  [fuel] bounds the
    nesting of the generators. *)

(** The turn of one entry [info] of the path: the body, then what the
    generator does when it is resumed.  [descend] is the nested
    generator, [None] when the fuel is spent. *)
Definition walk_step {B : Type}
    (descend : option (string → list source → B → M B))
    (prefix : string) (body : B → string * bool → M B)
    (acc : B) (info : source) : M B :=
  let name := prefix +:+ source_name info in
  do acc <- body acc (name, is_pkg info);           (* yield info *)
  if is_pkg info then
    λ w,
      match builtin_import name w with              (* try: __import__(info.name) *)
      | (Raise e, w') =>
          if is_ImportError e then (Return acc, w') (* except ImportError: pass *)
          else (Raise e, w')                        (* except Exception: raise *)
      | (Exhausted, w') => (Exhausted, w')
      | (Return _, w') =>                           (* else: *)
          match sys_modules w' !! name with
          | None => (Raise (OtherException "KeyError" (repr name)), w')
          | Some m =>
              let path := match mod_path m with Some p => p | None => [] end in
              match descend with
              | None => (Exhausted, w')
              | Some yield_from => yield_from (name +:+ ".") path acc w'
              end
          end
      end
  else ret acc.

Fixpoint walk_packages {B : Type} (fuel : nat) (path : list source) (prefix : string)
    (body : B → string * bool → M B) (acc : B) : M B :=
  for_each
    (walk_step
       match fuel with
       | 0 => None
       | S fuel' =>
           Some (λ prefix' path' acc', walk_packages fuel' path' prefix' body acc')
       end
       prefix body)
    acc path.

(** The nested generator available with [fuel]. *)
Definition descend_at {B : Type} (fuel : nat) (body : B → string * bool → M B)
  : option (string → list source → B → M B) :=
  match fuel with
  | 0 => None
  | S fuel' => Some (λ prefix' path' acc', walk_packages fuel' path' prefix' body acc')
  end.

(** ** [_import_submodules]

    Lines 21-43.  The recursion of the source is on the name of the
    sub-package; [depth] is how many nested recursive calls are allowed
    below this one, and how deep the generators of [walk_packages] may
    nest. *)

(** The body of the [for] loop, lines 38-41, for one [(name, is_pkg)];
    [recurse] is the recursive call, [None] when the budget is spent. *)
Definition loop_body (recurse : option (string → M (gmap string module)))
    (package : module) (recursive : bool)
    (results : gmap string module) (info : string * bool) : M (gmap string module) :=
  let full_name := mod_name package +:+ "." +:+ fst info in
  do m <- import_module full_name;
  let results := <[full_name := m]> results in
  if recursive && snd info then
    match recurse with
    | None => exhausted
    | Some recursive_call =>
        do sub <- recursive_call full_name;
        ret (sub ∪ results)        (* results |= sub: the right operand wins *)
    end
  else ret results.

Fixpoint _import_submodules (depth : nat) (package_name : string) (recursive : bool)
  : M (gmap string module) :=
  do package <- import_module package_name;
  match mod_path package with
  | None => ret ∅
  | Some path =>
      walk_packages depth path ""
        (loop_body
           match depth with
           | 0 => None
           | S depth' => Some (λ full_name, _import_submodules depth' full_name true)
           end
           package recursive)
        ∅
  end.

(** The recursive call available at [depth]. *)
Definition recurse_at (depth : nat) : option (string → M (gmap string module)) :=
  match depth with
  | 0 => None
  | S depth' => Some (λ full_name, _import_submodules depth' full_name true)
  end.

(** ** Package trees

    What the theorems about the walk say of a tree of sources. *)

(** How many recursive calls deep the walk below [t] goes. *)
Fixpoint nesting (t : source) : nat :=
  match t with
  | SourceModule _ _ => 0
  | SourcePackage _ _ cs => S (foldr (λ c acc, Nat.max (nesting c) acc) 0 cs)
  end.

Definition path_nesting (path : list source) : nat :=
  foldr (λ c acc, Nat.max (nesting c) acc) 0 path.

(** No two names of the list are equal. *)
Fixpoint distinct (names : list string) : bool :=
  match names with
  | [] => true
  | n :: rest => negb (existsb (String.eqb n) rest) && distinct rest
  end.

(** A directory listing: names are not empty and have no dot in them,
    and no two entries of one directory have the same name. *)
Fixpoint well_formed (t : source) : bool :=
  no_dot (source_name t) && negb (String.eqb (source_name t) "") &&
  match t with
  | SourceModule _ _ => true
  | SourcePackage _ _ cs => distinct (List.map source_name cs) && forallb well_formed cs
  end.

(** Every body in the tree runs to its end. *)
Fixpoint importable (t : source) : bool :=
  match source_body t with None => true | Some _ => false end &&
  match t with
  | SourceModule _ _ => true
  | SourcePackage _ _ cs => forallb importable cs
  end.

(** A directory whose every module and sub-package, at any depth, can
    be imported. *)
Definition clean_path (path : list source) : bool :=
  distinct (List.map source_name path) &&
  forallb (λ c, well_formed c && importable c) path.

(** The modules below [prefix] that source [t] contributes, with their
    dotted names: [t] itself and, for a package, all it contains. *)
Fixpoint submodules (prefix : string) (t : source) : list (string * source) :=
  let full_name := prefix +:+ "." +:+ source_name t in
  (full_name, t) ::
  match t with
  | SourceModule _ _ => []
  | SourcePackage _ _ cs => flat_map (submodules full_name) cs
  end.

Definition submodules_of (prefix : string) (path : list source) : list (string * source) :=
  flat_map (submodules prefix) path.

(** The calls of [importlib.import_module] the walk makes for source
    [t] below [prefix]: one from the loop, and for a package one more
    at the head of the recursive call, then those of its contents. *)
Fixpoint import_calls (prefix : string) (t : source) : list event :=
  let full_name := prefix +:+ "." +:+ source_name t in
  EvImport full_name ::
  match t with
  | SourceModule _ _ => []
  | SourcePackage _ _ cs => EvImport full_name :: flat_map (import_calls full_name) cs
  end.

(** The names of the sub-packages of a source, at every depth. *)
Fixpoint subpackage_names (t : source) : list string :=
  match t with
  | SourceModule _ _ => []
  | SourcePackage name _ cs => name :: flat_map subpackage_names cs
  end.

(** No sub-package of [path], at any depth, has a name that can be
    imported on its own: the name is neither in [sys.modules] nor on
    [sys.path]. *)
Definition bare_names_free (path : list source) (w : world) : Prop :=
  ∀ n, In n (flat_map subpackage_names path) →
       sys_modules w !! n = None ∧ find_source n (sys_path w) = None.

(** [n] is the dotted name [prefix.name] or a dotted name below it. *)
Definition below (prefix name n : string) : Prop :=
  ∃ r, n = prefix +:+ "." +:+ name +:+ r ∧ (r = "" ∨ startswith_dot r = true).

(** A name [importlib.import_module] accepts as absolute. *)
Definition absolute (name : string) : Prop :=
  name ≠ "" ∧ startswith_dot name = false.

(** World [w'] is [w] with the calls [calls] added to the journal and
    possibly more modules imported; nothing else differs. *)
Definition extends (w : world) (calls : list event) (w' : world) : Prop :=
  w' = set_sys_modules (sys_modules w') (set_journal (journal w ++ calls) w).

(** What walking the sources [path] below [prefix] has done between
    [w] and [w']: the calls are those of [import_calls], every module of
    the trees is in [sys.modules] under its dotted name, and no other
    name of [sys.modules] was touched. *)
Definition walked (prefix : string) (path : list source) (w w' : world) : Prop :=
  extends w (flat_map (import_calls prefix) path) w' ∧
  (∀ n t, In (n, t) (submodules_of prefix path) →
          sys_modules w' !! n = Some (module_of n t)) ∧
  (∀ n, (∀ c, In c path → ¬ below prefix (source_name c) n) →
        sys_modules w' !! n = sys_modules w !! n).

(** Every module of [sys.modules] is stored under its own [__name__],
    as the import system stores it. *)
Definition names_agree (modules : gmap string module) : Prop :=
  ∀ name m, modules !! name = Some m → mod_name m = name.

(** Nothing at or below the modules of [path] is imported yet. *)
Definition unvisited (prefix : string) (path : list source) (w : world) : Prop :=
  ∀ c n, In c path → below prefix (source_name c) n → sys_modules w !! n = None.

(** The contract of [_import_submodules d] on a package whose import
    returns [pkg] and leaves the world [w0], with a clean listing [cs]
    no deeper than [d], nothing below it imported yet and no
    sub-package name importable on its own: the call returns, and
    between [w0] and its end it has walked [cs]. *)
Definition import_submodules_spec (d : nat) : Prop :=
  ∀ prefix cs pkg w w0,
    import_module prefix w = (Return pkg, w0) →
    sys_modules w0 !! prefix = Some pkg →
    mod_name pkg = prefix →
    mod_path pkg = Some cs →
    clean_path cs = true →
    path_nesting cs ≤ d →
    unvisited prefix cs w0 →
    bare_names_free cs w0 →
    ∃ res w',
      _import_submodules d prefix true w = (Return res, w') ∧
      walked prefix cs w0 w'.

(** ** [_get_context_modules_shim] and [main] *)

Definition yellow : string := String (ascii_of_nat 27) "[1;33m".
Definition reset : string := String (ascii_of_nat 27) "[0m".

(** The f-string of lines 69-71. *)
Definition warning_line : string :=
  yellow +:+ "Warning: dbt-py was invoked, but no custom package was found." +:+ reset.

(** The result object of [dbtRunner().invoke]. *)
Record dbtRunnerResult : Type := RunnerResult {
  success : bool;
  exception : option exn
}.

(** [main] as the sequence of its effects on the host: rebinding the
    hook, the one call of the invoker, and the exit. *)
Inductive program : Type :=
| SetHook (h : hook_impl) (next : program)
| Invoke (args : list string) (next : dbtRunnerResult → program)
| Exit (code : Z).

(** What an observer of [main] sees, in order. *)
Inductive action : Type :=
| ActSetHook (h : hook_impl)
| ActInvoke (args : list string) (bound : hook_impl)
| ActExit (code : Z).

(** How many times the invoker was called in a run. *)
Definition is_invoke (a : action) : bool :=
  match a with ActInvoke _ _ => true | _ => false end.

Definition count_invocations (acts : list action) : nat :=
  length (List.filter is_invoke acts).

Section Host.

(** The host's own [get_context_modules()], imported by the shim as
    [_get_context_modules]: it builds the same dict at every call. *)
Variable _get_context_modules : gmap string value.

(** How deep [_import_submodules] may recurse. *)
Variable recursion_budget : nat.

(** Lines 53-54. *)
Definition package_root (w : world) : string :=
  environ_get_or "DBT_PY_PACKAGE_ROOT" "custom" w.

Definition package_name (w : world) : string :=
  environ_get_or "DBT_PY_PACKAGE_NAME" (package_root w) w.

(** The [try] block, lines 58-59, for the resolved configuration; it
    yields the dict [modules] after the assignment. *)
Definition try_block (root name : string) : M (gmap string value) :=
  do _ <- _import_submodules recursion_budget root true;
  do m <- import_module root;
  do_ log (EvSetItem name);
  ret (<[name := VModule m]> _get_context_modules).

(** The [except] block, lines 60-71; [modules] is as the host built it. *)
Definition except_block : M (gmap string value) :=
  do_ print warning_line;
  ret _get_context_modules.

(** The body of the shim, lines 53-73. *)
Definition shim_body : M (gmap string value) := λ w,
  let root := package_root w in
  let name := package_name w in
  try_except_ModuleNotFoundError (try_block root name) except_block w.

(** [@functools.cache] on a function without arguments: the first
    call that returns stores its result, later calls return the
    stored result and do not run the body.  A call that raises stores
    nothing. *)
Definition _get_context_modules_shim : M (gmap string value) := λ w,
  match shim_cache w with
  | Some cached => (Return cached, w)
  | None =>
      match shim_body w with
      | (Return modules, w') => (Return modules, set_shim_cache (Some modules) w')
      | other => other
      end
  end.

(** [_get_context_modules_shim.cache_clear()]. *)
Definition cache_clear : M unit := λ w, (Return tt, set_shim_cache None w).

(** The host asking for its module whitelist:
    [dbt.context.base.get_context_modules()] through the binding. *)
Definition get_context_modules : M (gmap string value) := λ w,
  match hook w with
  | HostDefault => (Return _get_context_modules, w)
  | Shim => _get_context_modules_shim w
  end.

(** Lines 83-90. *)
Definition main (argv : list string) : program :=
  SetHook Shim
    (Invoke (tail argv)
       (λ result,
          if success result then Exit 0
          else match exception result with
               | None => Exit 1
               | Some _ => Exit 2
               end)).

(** [dbt.cli.main.dbtRunner().invoke], the host's entry point. *)
Variable invoke : list string → M dbtRunnerResult.

(** Running a program against the host; [SystemExit] is how the
    process ends.  The actions observed come first in the result. *)
Fixpoint run (p : program) (w : world) : list action * (outcome unit * world) :=
  match p with
  | SetHook h next =>
      let r := run next (set_hook h w) in (ActSetHook h :: fst r, snd r)
  | Invoke args next =>
      match invoke args w with
      | (Return result, w') =>
          let r := run (next result) w' in (ActInvoke args (hook w) :: fst r, snd r)
      | (Raise e, w') => ([ActInvoke args (hook w)], (Raise e, w'))
      | (Exhausted, w') => ([ActInvoke args (hook w)], (Exhausted, w'))
      end
  | Exit code => ([ActExit code], (Raise (SystemExit code), w))
  end.

(** The process started as [dbt-py]: [main()] on [sys.argv]. *)
Definition run_main (w : world) : list action * (outcome unit * world) :=
  run (main (sys_argv w)) w.

End Host.

(** ** Concrete processes used as test inputs *)

(** The host's whitelist as dbt builds it. *)
Definition dbt_modules : gmap string value :=
  <["pytz" := VHost "pytz"]> (<["datetime" := VHost "datetime"]>
    (<["re" := VHost "re"]> (<["itertools" := VHost "itertools"]> ∅))).

(** A package [custom] with a module, a sub-package two levels deep and
    a second module. *)
Definition custom_package : source :=
  SourcePackage "custom" None
    [SourceModule "hello" None;
     SourcePackage "sub" None
       [SourceModule "b" None;
        SourcePackage "deep" None [SourceModule "c" None]];
     SourceModule "z" None].

(** A package whose sub-module raises [ValueError] when it is imported. *)
Definition broken_package : source :=
  SourcePackage "custom" None
    [SourceModule "bad" (Some (OtherException "ValueError" "bad literal"));
     SourceModule "hello" None].

(** A package [custom] with a sub-package [util], beside a top-level
    package that is also called [util]. *)
Definition clashing_path : list source :=
  [SourcePackage "custom" None [SourcePackage "util" None [SourceModule "a" None]];
   SourcePackage "util" None [SourceModule "extra" None]].

(** A package that is found but whose own [__init__] raises
    [ImportError] (a name it imports from elsewhere does not exist). *)
Definition failing_package : source :=
  SourcePackage "custom"
    (Some (OtherException "ImportError" "cannot import name 'udf' from 'helpers'")) [].

(** A fresh interpreter: nothing imported, nothing printed, nothing
    cached, the host's own hook in place. *)
Definition fresh (env : gmap string string) (path : list source) (argv : list string)
  : world :=
  World env path ∅ [] [] None HostDefault argv.

(** The environment of the integration tests: both variables set to the
    empty string. *)
Definition empty_settings : gmap string string :=
  <["DBT_PY_PACKAGE_ROOT" := ""]> (<["DBT_PY_PACKAGE_NAME" := ""]> ∅).

(** A host run that asks for its module whitelist once and succeeds. *)
Definition invoke_ok (modules : gmap string value) (budget : nat)
  (args : list string) : M dbtRunnerResult :=
  do _ <- get_context_modules modules budget;
  ret (RunnerResult true None).

(** The third row of the test table of the repository. *)
Definition something_bad : dbtRunnerResult :=
  RunnerResult false (Some (OtherException "Exception" "something bad")).

(** A host run that ends in the given result without asking anything. *)
Definition invoke_const (result : dbtRunnerResult) (args : list string)
  : M dbtRunnerResult :=
  ret result.

(** The world after the warning of the [except] block was printed. *)
Definition warned (w : world) : world :=
  set_journal (journal w ++ [EvPrint warning_line])
    (set_stdout (stdout w ++ [warning_line]) w).

(** ** Further notions and test inputs *)

(** Every module [sys.modules] holds in [w] it still holds, unchanged,
    in [w']. *)
Definition keeps_modules (w w' : world) : Prop :=
  ∀ k m, sys_modules w !! k = Some m → sys_modules w' !! k = Some m.

(** What a step on the dict [acc] keeps, however it ends: the process
    changes by imports only, no module already imported is lost, and a
    dict that is returned holds what [acc] held or what [sys.modules]
    now holds, under the keys of [acc] and the names imported. *)
Definition keeps_acc (acc : gmap string module) (step : M (gmap string module)) : Prop :=
  ∀ w o w1,
    step w = (o, w1) →
    ∃ calls,
      extends w calls w1 ∧
      keeps_modules w w1 ∧
      ∀ acc1, o = Return acc1 →
        (∀ k m, acc1 !! k = Some m → acc !! k = Some m ∨ sys_modules w1 !! k = Some m) ∧
        (∀ k, k ∈ dom acc1 ↔ k ∈ dom acc ∨ In (EvImport k) calls).

(** What every call of [_import_submodules d] keeps, however it ends:
    the process changes by the imports only, the first call recorded
    is the import of the package itself, no module already imported is
    lost, and a dict that is returned holds, under exactly the names
    imported after the first, what [sys.modules] holds there. *)
Definition import_submodules_keeps (d : nat) : Prop :=
  ∀ name recursive w o w',
    _import_submodules d name recursive w = (o, w') →
    ∃ calls,
      extends w (EvImport name :: calls) w' ∧
      keeps_modules w w' ∧
      ∀ res, o = Return res →
        (∀ k m, res !! k = Some m → sys_modules w' !! k = Some m) ∧
        (∀ k, k ∈ dom res ↔ In (EvImport k) calls).

(** The contract of [_import_submodules d] on a package [pkg] that is
    in [sys.modules] together with every module of its clean listing
    [cs], no deeper than [d], with no sub-package name importable on its
    own: it returns, and only the journal has changed. *)
Definition revisit_spec (d : nat) : Prop :=
  ∀ prefix cs pkg w,
    absolute prefix →
    sys_modules w !! prefix = Some pkg →
    mod_name pkg = prefix →
    mod_path pkg = Some cs →
    (∀ n t, In (n, t) (submodules_of prefix cs) →
            sys_modules w !! n = Some (module_of n t)) →
    path_nesting cs ≤ d →
    clean_path cs = true →
    bare_names_free cs w →
    ∃ res,
      _import_submodules d prefix true w
      = (Return res,
         set_journal
           (journal w ++ EvImport prefix :: flat_map (import_calls prefix) cs) w).

(** The calls [_import_submodules(prefix, recursive=False)] makes for
    the sources on the package's path: one import each. *)
Definition direct_calls (prefix : string) (path : list source) : list event :=
  List.map (λ c, EvImport (prefix +:+ "." +:+ source_name c)) path.

(** A reference that names a single-file module, not a package. *)
Definition single_module : source := SourceModule "custom" None.

(** A package with a sub-package whose own module is broken: a walk
    that does not descend never runs it. *)
Definition shallow_package : source :=
  SourcePackage "custom" None
    [SourceModule "hello" None;
     SourcePackage "sub" None
       [SourceModule "bad" (Some (OtherException "ValueError" "bad literal"))]].

(** A host run that raises instead of returning a result. *)
Definition invoke_raises (e : exn) (args : list string) : M dbtRunnerResult :=
  raise e.

(** * Properties *)

(** ** Configuration *)

Lemma environ_get_or_unset key default w :
  environ w !! key = None → environ_get_or key default w = default.
Proof. intros H. unfold environ_get_or. now rewrite H. Qed.

Lemma environ_get_or_empty key default w :
  environ w !! key = Some "" → environ_get_or key default w = default.
Proof. intros H. unfold environ_get_or. now rewrite H. Qed.

Lemma environ_get_or_set key default v w :
  environ w !! key = Some v → v ≠ "" → environ_get_or key default w = v.
Proof.
  intros H Hv. unfold environ_get_or. rewrite H.
  destruct (String.eqb_spec v ""); congruence.
Qed.

(** C7: an unset package-root variable gives the literal [custom], and
    an unset package-name variable gives the resolved package root. *)
Theorem config_defaults (w : world) :
  (environ w !! "DBT_PY_PACKAGE_ROOT" = None → package_root w = "custom") ∧
  (environ w !! "DBT_PY_PACKAGE_NAME" = None → package_name w = package_root w).
Proof.
  split; intros H.
  - unfold package_root. now apply environ_get_or_unset.
  - unfold package_name. now apply environ_get_or_unset.
Qed.

Lemma config_defaults_witness :
  package_root (fresh ∅ [] []) = "custom" ∧
  package_name (fresh (<["DBT_PY_PACKAGE_ROOT" := "pkg.udf"]> ∅) [] []) = "pkg.udf".
Proof.
  split.
  - apply (proj1 (config_defaults (fresh ∅ [] []))). reflexivity.
  - rewrite (proj2 (config_defaults (fresh (<["DBT_PY_PACKAGE_ROOT" := "pkg.udf"]> ∅) [] []))).
    + reflexivity.
    + reflexivity.
Defined.

(** C9: a variable set to the empty string resolves as the same
    variable unset does: the root to [custom], the exposed name to the
    resolved root. *)
Theorem empty_string_is_unset (env : gmap string string) (w : world) :
  package_root (set_environ (<["DBT_PY_PACKAGE_ROOT" := ""]> env) w)
    = package_root (set_environ (delete "DBT_PY_PACKAGE_ROOT" env) w) ∧
  package_root (set_environ (<["DBT_PY_PACKAGE_ROOT" := ""]> env) w) = "custom" ∧
  package_name (set_environ (<["DBT_PY_PACKAGE_NAME" := ""]> env) w)
    = package_name (set_environ (delete "DBT_PY_PACKAGE_NAME" env) w) ∧
  package_name (set_environ (<["DBT_PY_PACKAGE_NAME" := ""]> env) w)
    = package_root (set_environ (<["DBT_PY_PACKAGE_NAME" := ""]> env) w).
Proof.
  assert (Hroot : ∀ e1 e2 : gmap string string,
             e1 !! "DBT_PY_PACKAGE_ROOT" = e2 !! "DBT_PY_PACKAGE_ROOT" →
             package_root (set_environ e1 w) = package_root (set_environ e2 w)).
  { intros e1 e2 H. unfold package_root, environ_get_or. simpl. now rewrite H. }
  repeat split.
  - unfold package_root, environ_get_or. simpl.
    now rewrite lookup_insert_eq, lookup_delete_eq.
  - unfold package_root. apply environ_get_or_empty. simpl. apply lookup_insert_eq.
  - unfold package_name, environ_get_or. simpl.
    rewrite lookup_insert_eq, lookup_delete_eq. simpl.
    apply Hroot. now rewrite lookup_insert_ne, lookup_delete_ne.
  - unfold package_name. apply environ_get_or_empty. simpl. apply lookup_insert_eq.
Qed.

(** ** The invocation adapter *)

Lemma run_main_unfold invoke w :
  run_main invoke w =
    match invoke (tail (sys_argv w)) (set_hook Shim w) with
    | (Return result, w') =>
        let code := if success result then 0%Z
                    else match exception result with None => 1%Z | Some _ => 2%Z end in
        ([ActSetHook Shim; ActInvoke (tail (sys_argv w)) Shim; ActExit code],
         (Raise (SystemExit code), w'))
    | (Raise e, w') =>
        ([ActSetHook Shim; ActInvoke (tail (sys_argv w)) Shim], (Raise e, w'))
    | (Exhausted, w') =>
        ([ActSetHook Shim; ActInvoke (tail (sys_argv w)) Shim], (Exhausted, w'))
    end.
Proof.
  unfold run_main, main. simpl.
  destruct (invoke (tail (sys_argv w)) (set_hook Shim w)) as [[result | e |] w']; simpl;
    try reflexivity.
  destruct (success result); [reflexivity |].
  destruct (exception result); reflexivity.
Qed.

(** C1: whatever result the host invoker returns, [main] ends in
    [SystemExit], with code 0 when [success] holds, 1 when it does not
    and there is no exception, 2 when it does not and there is one. *)
Theorem exit_code_mapping (invoke : list string → M dbtRunnerResult)
    (w w' : world) (result : dbtRunnerResult) :
  invoke (tail (sys_argv w)) (set_hook Shim w) = (Return result, w') →
  ∃ code : Z,
    snd (run_main invoke w) = (Raise (SystemExit code), w') ∧
    (success result = true → code = 0%Z) ∧
    (success result = false → exception result = None → code = 1%Z) ∧
    (success result = false → (∃ e, exception result = Some e) → code = 2%Z).
Proof.
  intros Hinv. rewrite run_main_unfold, Hinv.
  destruct result as [ok exc]. simpl.
  destruct ok; [| destruct exc as [e |]].
  - exists 0%Z. repeat split; intros; congruence.
  - exists 2%Z. repeat split; intros; congruence.
  - exists 1%Z. repeat split; try congruence. intros _ [e He]. discriminate.
Qed.

Lemma exit_code_mapping_witness :
  ∃ code : Z,
    snd (run_main (invoke_const something_bad) (fresh ∅ [] ["dbt-py"; "compile"]))
      = (Raise (SystemExit code), set_hook Shim (fresh ∅ [] ["dbt-py"; "compile"])) ∧
    code = 2%Z.
Proof.
  destruct (exit_code_mapping
              (invoke_const something_bad)
              (fresh ∅ [] ["dbt-py"; "compile"])
              (set_hook Shim (fresh ∅ [] ["dbt-py"; "compile"]))
              something_bad
              eq_refl) as (code & Hrun & _ & _ & H2).
  exists code. split; [exact Hrun |].
  apply H2; [reflexivity | eexists; reflexivity].
Defined.

(** The three rows of the test table of the repository. *)
Example exit_codes_of_the_test_table :
  snd (run_main (invoke_const (RunnerResult true None)) (fresh ∅ [] ["dbt-py"; "compile"]))
    = (Raise (SystemExit 0), set_hook Shim (fresh ∅ [] ["dbt-py"; "compile"])) ∧
  snd (run_main (invoke_const (RunnerResult false None)) (fresh ∅ [] ["dbt-py"; "compile"]))
    = (Raise (SystemExit 1), set_hook Shim (fresh ∅ [] ["dbt-py"; "compile"])) ∧
  snd (run_main (invoke_const (RunnerResult true (Some (OtherException "Exception" "x"))))
         (fresh ∅ [] ["dbt-py"; "compile"]))
    = (Raise (SystemExit 0), set_hook Shim (fresh ∅ [] ["dbt-py"; "compile"])).
Proof. repeat split. Qed.

(** C8: in every run of [main] the first action binds the host's hook
    to the shim, the second is the call of the invoker, made with the
    arguments after the program name and with the shim already bound;
    the invoker is called exactly once, and nothing but the exit
    follows it. *)
Theorem main_installs_then_invokes_once (invoke : list string → M dbtRunnerResult)
    (w : world) :
  ∃ rest : list action,
    fst (run_main invoke w)
      = ActSetHook Shim :: ActInvoke (tail (sys_argv w)) Shim :: rest ∧
    count_invocations (fst (run_main invoke w)) = 1 ∧
    (rest = [] ∨ ∃ code, rest = [ActExit code]).
Proof.
  rewrite run_main_unfold.
  destruct (invoke (tail (sys_argv w)) (set_hook Shim w)) as [[result | e |] w']; simpl.
  - eexists. split; [reflexivity |]. split; [reflexivity |].
    right; eexists; reflexivity.
  - exists []. split; [reflexivity |]. split; [reflexivity |]. now left.
  - exists []. split; [reflexivity |]. split; [reflexivity |]. now left.
Qed.

(** ** The registrar: what one run of the body can do *)

Section Registrar.

Variable host : gmap string value.
Variable budget : nat.

(** When the [try] block returns, it returns the host's dict with the
    one assignment made. *)
Lemma try_block_returns w r w1 :
  try_block host budget (package_root w) (package_name w) w = (Return r, w1) →
  ∃ m, r = <[package_name w := VModule m]> host.
Proof.
  unfold try_block, bind, log, ret.
  destruct (_import_submodules budget (package_root w) true w) as [[res | e |] wa];
    [| discriminate | discriminate].
  destruct (import_module (package_root w) wa) as [[m | e |] wb];
    [| discriminate | discriminate].
  intros [= <- _]. now exists m.
Qed.

(** The three ways the body ends, by how the [try] block ends. *)
Lemma shim_body_returned w r w1 :
  try_block host budget (package_root w) (package_name w) w = (Return r, w1) →
  shim_body host budget w = (Return r, w1).
Proof. intros H. unfold shim_body, try_except_ModuleNotFoundError. now rewrite H. Qed.

Lemma shim_body_caught w e w1 :
  try_block host budget (package_root w) (package_name w) w = (Raise e, w1) →
  is_ModuleNotFoundError e = true →
  shim_body host budget w = (Return host, warned w1).
Proof.
  intros H He. unfold shim_body, try_except_ModuleNotFoundError.
  rewrite H, He. reflexivity.
Qed.

Lemma shim_body_uncaught w e w1 :
  try_block host budget (package_root w) (package_name w) w = (Raise e, w1) →
  is_ModuleNotFoundError e = false →
  shim_body host budget w = (Raise e, w1).
Proof.
  intros H He. unfold shim_body, try_except_ModuleNotFoundError.
  now rewrite H, He.
Qed.

Lemma shim_body_exhausted w w1 :
  try_block host budget (package_root w) (package_name w) w = (Exhausted, w1) →
  shim_body host budget w = (Exhausted, w1).
Proof. intros H. unfold shim_body, try_except_ModuleNotFoundError. now rewrite H. Qed.

(** An exception of the first import is the exception of
    [_import_submodules], at any depth. *)
Lemma import_submodules_first_import_raises depth name recursive w e w1 :
  import_module name w = (Raise e, w1) →
  _import_submodules depth name recursive w = (Raise e, w1).
Proof.
  intros H. destruct depth; simpl; unfold bind; now rewrite H.
Qed.

(** An exception of [_import_submodules] is the exception of the
    [try] block. *)
Lemma try_block_import_submodules_raises w e w1 :
  _import_submodules budget (package_root w) true w = (Raise e, w1) →
  try_block host budget (package_root w) (package_name w) w = (Raise e, w1).
Proof. intros H. unfold try_block, bind. now rewrite H. Qed.

(** The wrapper of [functools.cache] on an empty memo. *)
Lemma shim_uncached w :
  shim_cache w = None →
  _get_context_modules_shim host budget w = match shim_body host budget w with
           | (Return modules, w') => (Return modules, set_shim_cache (Some modules) w')
           | other => other
           end.
Proof. intros H. unfold _get_context_modules_shim. now rewrite H. Qed.

Lemma shim_cached w cached :
  shim_cache w = Some cached → _get_context_modules_shim host budget w = (Return cached, w).
Proof. intros H. unfold _get_context_modules_shim. now rewrite H. Qed.

(** A call that returns leaves its result in the memo. *)
Lemma shim_fills_cache w r w1 :
  _get_context_modules_shim host budget w = (Return r, w1) → shim_cache w1 = Some r.
Proof.
  unfold _get_context_modules_shim.
  destruct (shim_cache w) as [cached |] eqn:Hc.
  - intros [= <- <-]. exact Hc.
  - destruct (shim_body host budget w) as [[modules | e |] w']; [| discriminate | discriminate].
    intros [= <- <-]. reflexivity.
Qed.

(** C3: once a call of the registrar has returned, the next call
    returns the same mapping and leaves the process as it found it
    (nothing is imported, printed or assigned again), and so does a
    call made after the environment was changed without clearing the
    memo: the new configuration is not picked up. *)
Theorem shim_is_memoized (w w1 : world) (r : gmap string value) :
  _get_context_modules_shim host budget w = (Return r, w1) →
  _get_context_modules_shim host budget w1 = (Return r, w1) ∧
  ∀ env' : gmap string string,
    _get_context_modules_shim host budget (set_environ env' w1) = (Return r, set_environ env' w1).
Proof.
  intros H. apply shim_fills_cache in H. split.
  - now apply shim_cached.
  - intros env'. now apply shim_cached.
Qed.

(** C4: in the mapping a run of the registrar returns, every key but
    the exposed name holds what the host's registry holds there, be
    it an entry or none. *)
Theorem shim_keeps_host_entries (w w1 : world) (r : gmap string value) :
  shim_cache w = None →
  _get_context_modules_shim host budget w = (Return r, w1) →
  ∀ key : string, key ≠ package_name w → r !! key = host !! key.
Proof.
  intros Hc H key Hkey. rewrite (shim_uncached w Hc) in H.
  unfold shim_body, try_except_ModuleNotFoundError in H.
  destruct (try_block host budget (package_root w) (package_name w) w)
    as [[modules | e |] wa] eqn:Htry.
  - injection H as <- _.
    destruct (try_block_returns _ _ _ Htry) as [m ->].
    now rewrite lookup_insert_ne.
  - destruct (is_ModuleNotFoundError e); [| discriminate].
    unfold except_block, bind, print, ret in H. now injection H as <- _.
  - discriminate.
Qed.

(** C2, amended: when the import of the configured package reference
    ends in [ModuleNotFoundError] (the reference cannot be found), the
    registrar returns, and what it returns is the host's registry as
    the host built it; the process has the warning printed and nothing
    assigned. *)
Theorem missing_package_is_not_fatal (w w1 : world) (msg : string) :
  shim_cache w = None →
  import_module (package_root w) w = (Raise (ModuleNotFoundError msg), w1) →
  _get_context_modules_shim host budget w = (Return host, set_shim_cache (Some host) (warned w1)).
Proof.
  intros Hc H. rewrite (shim_uncached w Hc).
  rewrite (shim_body_caught w (ModuleNotFoundError msg) w1); [reflexivity | | reflexivity].
  apply try_block_import_submodules_raises.
  now apply import_submodules_first_import_raises.
Qed.

(** The [try] block raises what the walk raises or, after a walk that
    returned, what the import of the package raises. *)
Lemma try_block_raises w e w1 :
  (_import_submodules budget (package_root w) true w = (Raise e, w1) ∨
   ∃ res wa,
     _import_submodules budget (package_root w) true w = (Return res, wa) ∧
     import_module (package_root w) wa = (Raise e, w1)) →
  try_block host budget (package_root w) (package_name w) w = (Raise e, w1).
Proof.
  intros [H | (res & wa & H & H')]; unfold try_block, bind; rewrite H; [reflexivity |].
  now rewrite H'.
Qed.

(** C10: of the exceptions raised while the package and its
    sub-modules are imported (by the walk of [_import_submodules], or
    by the import of the package after it), only [ModuleNotFoundError]
    is turned into the warning; any other one leaves the registrar as
    it was raised, with nothing printed and nothing stored in the memo. *)
Theorem only_module_not_found_is_caught (w w1 : world) (e : exn) :
  shim_cache w = None →
  (_import_submodules budget (package_root w) true w = (Raise e, w1) ∨
   ∃ res wa,
     _import_submodules budget (package_root w) true w = (Return res, wa) ∧
     import_module (package_root w) wa = (Raise e, w1)) →
  (is_ModuleNotFoundError e = false →
     _get_context_modules_shim host budget w = (Raise e, w1)) ∧
  (is_ModuleNotFoundError e = true →
     _get_context_modules_shim host budget w
       = (Return host, set_shim_cache (Some host) (warned w1))).
Proof.
  intros Hc H. apply try_block_raises in H.
  rewrite (shim_uncached w Hc). split; intros He.
  - now rewrite (shim_body_uncaught _ _ _ H He).
  - now rewrite (shim_body_caught _ _ _ H He).
Qed.

End Registrar.

(** ** Dotted names *)

Lemma append_cons (x : ascii) (a b : string) : String x a +:+ b = String x (a +:+ b).
Proof. reflexivity. Qed.

Lemma append_empty_l (a : string) : "" +:+ a = a.
Proof. reflexivity. Qed.

Lemma append_assoc (a b c : string) : (a +:+ b) +:+ c = a +:+ (b +:+ c).
Proof.
  induction a as [| x a IH]; [reflexivity |].
  rewrite !append_cons. now f_equal.
Qed.

Lemma append_empty_r (a : string) : a +:+ "" = a.
Proof.
  induction a as [| x a IH]; [reflexivity |].
  rewrite append_cons. now f_equal.
Qed.

Lemma length_append (a b : string) :
  String.length (a +:+ b) = String.length a + String.length b.
Proof.
  induction a as [| x a IH]; [reflexivity |].
  rewrite append_cons. simpl. now rewrite IH.
Qed.

Lemma append_cancel_l (a b c : string) : a +:+ b = a +:+ c → b = c.
Proof.
  induction a as [| x a IH]; [tauto |].
  rewrite !append_cons. intros [= H]. now apply IH.
Qed.

Lemma rpartition_dot_no_dot (c : string) : no_dot c = true → rpartition_dot c = None.
Proof.
  induction c as [| x c IH]; simpl; [reflexivity |].
  intros [Hx Hc]%andb_prop. rewrite (IH Hc).
  now destruct (Ascii.eqb x ".").
Qed.

(** The last dot of [parent.child] is the one written between them. *)
Lemma rpartition_dot_child (parent child : string) :
  no_dot child = true →
  rpartition_dot (parent +:+ "." +:+ child) = Some (parent, child).
Proof.
  intros Hc. induction parent as [| x parent IH].
  - rewrite append_empty_l, append_cons, append_empty_l. simpl.
    now rewrite (rpartition_dot_no_dot child Hc).
  - rewrite append_cons. simpl. now rewrite IH.
Qed.

Lemma startswith_dot_append (a b : string) :
  a ≠ "" → startswith_dot (a +:+ b) = startswith_dot a.
Proof. destruct a; [congruence | reflexivity]. Qed.

Lemma absolute_child (parent child : string) :
  absolute parent → absolute (parent +:+ "." +:+ child).
Proof.
  intros [Hne Hdot]. split.
  - destruct parent; [congruence | discriminate].
  - now rewrite startswith_dot_append.
Qed.

Lemma absolute_eqb (name : string) : absolute name → String.eqb name "" = false.
Proof. intros [Hne _]. now apply String.eqb_neq. Qed.

(** Two dot-free names followed by nothing or by a dot agree when the
    whole strings do. *)
Lemma dot_free_head_inj (c1 c2 r1 r2 : string) :
  no_dot c1 = true → no_dot c2 = true →
  (r1 = "" ∨ startswith_dot r1 = true) →
  (r2 = "" ∨ startswith_dot r2 = true) →
  c1 +:+ r1 = c2 +:+ r2 → c1 = c2.
Proof.
  revert c2. induction c1 as [| x c1 IH]; intros [| y c2] H1 H2 Hr1 Hr2 Heq;
    rewrite ?append_cons, ?append_empty_l in Heq; simpl in H1, H2.
  - reflexivity.
  - apply andb_prop in H2 as [Hy _].
    destruct Hr1 as [-> | Hr1]; [discriminate |].
    subst r1. simpl in Hr1. rewrite Hr1 in Hy. discriminate.
  - apply andb_prop in H1 as [Hx _].
    destruct Hr2 as [-> | Hr2]; [discriminate |].
    subst r2. simpl in Hr2. rewrite Hr2 in Hx. discriminate.
  - apply andb_prop in H1 as [_ H1]. apply andb_prop in H2 as [_ H2].
    injection Heq as -> Heq. f_equal. now apply (IH c2).
Qed.

Lemma below_self (prefix name : string) : below prefix name (prefix +:+ "." +:+ name).
Proof. exists "". split; [now rewrite append_empty_r | now left]. Qed.

Lemma below_inj (prefix c1 c2 n : string) :
  no_dot c1 = true → no_dot c2 = true →
  below prefix c1 n → below prefix c2 n → c1 = c2.
Proof.
  intros H1 H2 (r1 & -> & Hr1) (r2 & Heq & Hr2).
  apply append_cancel_l in Heq. rewrite !append_cons, !append_empty_l in Heq.
  injection Heq as Heq.
  now apply (dot_free_head_inj c1 c2 r1 r2).
Qed.

Lemma below_longer (prefix name n : string) : below prefix name n → n ≠ prefix.
Proof.
  intros (r & -> & _) Heq.
  apply (f_equal String.length) in Heq.
  rewrite length_append, append_cons in Heq. simpl in Heq. lia.
Qed.

(** What lies below [prefix.name.child] lies below [prefix.name]. *)
Lemma below_child (prefix name child n : string) :
  below (prefix +:+ "." +:+ name) child n → below prefix name n.
Proof.
  intros (r & -> & Hr).
  exists ("." +:+ child +:+ r). split; [| now right].
  now rewrite !append_assoc.
Qed.

(** ** Single imports *)

Lemma find_and_load_cached fuel name m w :
  sys_modules w !! name = Some m → _find_and_load fuel name w = (Return m, w).
Proof. intros H. destruct fuel; simpl; now rewrite H. Qed.

(** Importing what [sys.modules] already holds only records the call. *)
Lemma import_module_cached name m w :
  absolute name →
  sys_modules w !! name = Some m →
  import_module name w = (Return m, set_journal (journal w ++ [EvImport name]) w).
Proof.
  intros Habs H. unfold import_module, bind, log.
  destruct Habs as [Hne Hdot]. rewrite Hdot.
  apply String.eqb_neq in Hne. rewrite Hne.
  now apply find_and_load_cached.
Qed.

(** Importing [parent.child] for the first time, with [parent] already
    imported: the child is looked up on the parent's [__path__] and
    loaded. *)
Lemma import_module_child parent child pm path t w :
  absolute parent → no_dot child = true →
  sys_modules w !! parent = Some pm →
  mod_path pm = Some path →
  sys_modules w !! (parent +:+ "." +:+ child) = None →
  find_source child path = Some t →
  source_body t = None →
  import_module (parent +:+ "." +:+ child) w
  = (Return (module_of (parent +:+ "." +:+ child) t),
     set_sys_modules
       (<[parent +:+ "." +:+ child := module_of (parent +:+ "." +:+ child) t]>
          (sys_modules w))
       (set_journal (journal w ++ [EvImport (parent +:+ "." +:+ child)]) w)).
Proof.
  intros Habs Hchild Hparent Hpath Hnew Hfind Hbody.
  pose proof (absolute_child parent child Habs) as [Hne Hdot].
  unfold import_module, bind, log. rewrite Hdot.
  apply String.eqb_neq in Hne. rewrite Hne.
  destruct (String.length (parent +:+ "." +:+ child)) as [| fuel] eqn:Hlen.
  { rewrite length_append, append_cons in Hlen. simpl in Hlen. lia. }
  cbn. rewrite Hnew.
  unfold rpartition_head, rpartition_tail.
  rewrite (rpartition_dot_child parent child Hchild).
  rewrite (absolute_eqb parent Habs).
  unfold bind. cbn. rewrite Hparent. cbn. rewrite Hnew, Hparent, Hpath, Hfind.
  unfold load. now rewrite Hbody.
Qed.

(** An import that returns was given an absolute name. *)
Lemma import_module_returns_absolute name m w w1 :
  import_module name w = (Return m, w1) → absolute name.
Proof.
  unfold import_module, bind, log, raise.
  destruct (startswith_dot name) eqn:Hdot; [discriminate |].
  destruct (String.eqb_spec name ""); [discriminate |].
  intros _. now split.
Qed.

(** ** Worlds along a walk *)

Lemma extends_refl w : extends w [] w.
Proof. unfold extends. destruct w; simpl. now rewrite app_nil_r. Qed.

Lemma extends_trans w w1 w2 calls1 calls2 :
  extends w calls1 w1 → extends w1 calls2 w2 → extends w (calls1 ++ calls2) w2.
Proof.
  unfold extends. intros H1 H2.
  assert (Hj : journal w1 = journal w ++ calls1) by (rewrite H1; now destruct w).
  rewrite H2, Hj. clear H2 Hj. rewrite H1.
  destruct w; simpl. now rewrite app_assoc.
Qed.

Lemma extends_import w name m :
  extends w [EvImport name]
    (set_sys_modules (<[name := m]> (sys_modules w))
       (set_journal (journal w ++ [EvImport name]) w)).
Proof. unfold extends. now destruct w. Qed.

Lemma extends_call w name :
  extends w [EvImport name] (set_journal (journal w ++ [EvImport name]) w).
Proof. unfold extends. now destruct w. Qed.

Lemma extends_journal w calls : extends w calls (set_journal (journal w ++ calls) w).
Proof. unfold extends. now destruct w. Qed.

(** What [extends] says field by field. *)
Lemma extends_fields w calls w' :
  extends w calls w' →
  environ w' = environ w ∧ sys_path w' = sys_path w ∧ stdout w' = stdout w ∧
  journal w' = journal w ++ calls ∧ shim_cache w' = shim_cache w ∧
  hook w' = hook w ∧ sys_argv w' = sys_argv w.
Proof. unfold extends. intros ->. now destruct w. Qed.

Lemma set_journal_twice w j1 j2 : set_journal j2 (set_journal j1 w) = set_journal j2 w.
Proof. now destruct w. Qed.

Lemma set_journal_same w : set_journal (journal w ++ []) w = w.
Proof. destruct w; simpl. now rewrite app_nil_r. Qed.

Lemma for_each_cons {A B} (step : B → A → M B) acc x xs w :
  for_each step acc (x :: xs) w
  = match step acc x w with
    | (Return acc', w') => for_each step acc' xs w'
    | (Raise e, w') => (Raise e, w')
    | (Exhausted, w') => (Exhausted, w')
    end.
Proof. reflexivity. Qed.

(** ** What an import leaves behind *)

(** The loader and the finder touch [sys.modules] and nothing else. *)
Lemma find_and_load_frame fuel : ∀ name w o w',
  _find_and_load fuel name w = (o, w') → w' = set_sys_modules (sys_modules w') w.
Proof.
  assert (Hload : ∀ name t w o w',
            load name t w = (o, w') → w' = set_sys_modules (sys_modules w') w).
  { intros name t w o w'. unfold load.
    destruct (source_body t); intros [= _ <-]; now destruct w. }
  induction fuel as [| fuel IH]; intros name w o w'; simpl.
  - destruct (sys_modules w !! name); intros [= _ <-]; now destruct w.
  - destruct (sys_modules w !! name); [intros [= _ <-]; now destruct w |].
    destruct (String.eqb (rpartition_head name) "").
    + destruct (find_source name (sys_path w)); [apply Hload |].
      intros [= _ <-]; now destruct w.
    + unfold bind.
      destruct (sys_modules w !! rpartition_head name) as [pm |] eqn:Hparent.
      * rewrite Hparent.
        destruct (sys_modules w !! name); [intros [= _ <-]; now destruct w |].
        destruct (mod_path pm); [| intros [= _ <-]; now destruct w].
        destruct (find_source (rpartition_tail name) l); [apply Hload |].
        intros [= _ <-]; now destruct w.
      * destruct (_find_and_load fuel (rpartition_head name) w) as [[pm | e |] w1] eqn:Hrec;
          apply IH in Hrec;
          [| intros [= _ <-]; exact Hrec | intros [= _ <-]; exact Hrec].
        assert (Hstep : ∀ w2, w2 = set_sys_modules (sys_modules w2) w1 →
                          w2 = set_sys_modules (sys_modules w2) w).
        { intros w2 H2. rewrite H2. simpl. rewrite Hrec. now destruct w. }
        destruct (sys_modules w1 !! name);
          [intros [= _ <-]; exact Hrec |].
        destruct (sys_modules w1 !! rpartition_head name) as [pm' |];
          [| intros [= _ <-]; exact Hrec].
        destruct (mod_path pm'); [| intros [= _ <-]; exact Hrec].
        destruct (find_source (rpartition_tail name) l);
          [| intros [= _ <-]; exact Hrec].
        intros Hl. apply Hload in Hl. now apply Hstep.
Qed.

(** A module an import returns is the one [sys.modules] now holds
    under the name asked for. *)
Lemma find_and_load_registers fuel name m w w' :
  _find_and_load fuel name w = (Return m, w') → sys_modules w' !! name = Some m.
Proof.
  assert (Hload : ∀ t w, load name t w = (Return m, w') → sys_modules w' !! name = Some m).
  { intros t w0. unfold load. destruct (source_body t); [discriminate |].
    intros [= <- <-]. simpl. apply lookup_insert_eq. }
  destruct fuel as [| fuel]; simpl.
  - destruct (sys_modules w !! name) eqn:H; [| discriminate]. now intros [= <- <-].
  - destruct (sys_modules w !! name) eqn:H; [now intros [= <- <-] |].
    destruct (String.eqb (rpartition_head name) "").
    + destruct (find_source name (sys_path w)); [apply Hload | discriminate].
    + unfold bind.
      destruct (match sys_modules w !! rpartition_head name with
                | Some m0 => (Return m0, w)
                | None => _find_and_load fuel (rpartition_head name) w
                end) as [[pm | e |] w1]; [| discriminate | discriminate].
      destruct (sys_modules w1 !! name) eqn:H1; [now intros [= <- <-] |].
      destruct (sys_modules w1 !! rpartition_head name) as [pm' |]; [| discriminate].
      destruct (mod_path pm'); [| discriminate].
      destruct (find_source (rpartition_tail name) l); [apply Hload | discriminate].
Qed.

(** Imports keep [sys.modules] keyed by the modules' own names. *)
Lemma find_and_load_names_agree fuel : ∀ name w o w',
  names_agree (sys_modules w) →
  _find_and_load fuel name w = (o, w') → names_agree (sys_modules w').
Proof.
  assert (Hload : ∀ name t w o w',
            names_agree (sys_modules w) →
            load name t w = (o, w') → names_agree (sys_modules w')).
  { intros name t w o w' Hw. unfold load.
    destruct (source_body t); intros [= _ <-]; [exact Hw |].
    simpl. intros k m. rewrite lookup_insert.
    destruct (decide (name = k)) as [<- |]; [now intros [= <-] | apply Hw]. }
  induction fuel as [| fuel IH]; intros name w o w' Hw; simpl.
  - destruct (sys_modules w !! name); now intros [= _ <-].
  - destruct (sys_modules w !! name); [now intros [= _ <-] |].
    destruct (String.eqb (rpartition_head name) "").
    + destruct (find_source name (sys_path w)); [now apply Hload | now intros [= _ <-]].
    + unfold bind.
      destruct (match sys_modules w !! rpartition_head name with
                | Some m0 => (Return m0, w)
                | None => _find_and_load fuel (rpartition_head name) w
                end) as [o1 w1] eqn:Hparent.
      assert (Hw1 : names_agree (sys_modules w1)).
      { destruct (sys_modules w !! rpartition_head name).
        - now injection Hparent as _ <-.
        - now apply (IH _ _ _ _ Hw Hparent). }
      destruct o1 as [pm | e |]; [| now intros [= _ <-] | now intros [= _ <-]].
      destruct (sys_modules w1 !! name); [now intros [= _ <-] |].
      destruct (sys_modules w1 !! rpartition_head name) as [pm' |];
        [| now intros [= _ <-]].
      destruct (mod_path pm'); [| now intros [= _ <-]].
      destruct (find_source (rpartition_tail name) l);
        [now apply Hload | now intros [= _ <-]].
Qed.

(** The module an import returns carries the name asked for. *)
Lemma import_module_name name m w w' :
  names_agree (sys_modules w) →
  import_module name w = (Return m, w') → mod_name m = name.
Proof.
  intros Hw H.
  assert (Hw' : names_agree (sys_modules w')).
  { revert H. unfold import_module, bind, log, raise.
    destruct (startswith_dot name); [discriminate |].
    destruct (String.eqb name ""); [discriminate |].
    apply find_and_load_names_agree. exact Hw. }
  apply Hw'. revert H. unfold import_module, bind, log, raise.
  destruct (startswith_dot name); [discriminate |].
  destruct (String.eqb name ""); [discriminate |].
  apply find_and_load_registers.
Qed.

Lemma import_module_extends name o w w' :
  import_module name w = (o, w') → extends w [EvImport name] w'.
Proof.
  unfold import_module, bind, log, raise, extends.
  destruct (startswith_dot name); [intros [= _ <-]; now destruct w |].
  destruct (String.eqb name ""); [intros [= _ <-]; now destruct w |].
  intros H. apply find_and_load_frame in H. rewrite H. now destruct w.
Qed.

Lemma import_module_registers name m w w' :
  import_module name w = (Return m, w') → sys_modules w' !! name = Some m.
Proof.
  unfold import_module, bind, log, raise.
  destruct (startswith_dot name); [discriminate |].
  destruct (String.eqb name ""); [discriminate |].
  apply find_and_load_registers.
Qed.

(** The chain of parents is never longer than the name: the fuel
    [import_module] gives to [_find_and_load] is enough. *)
Lemma rpartition_head_shorter name head tail :
  rpartition_dot name = Some (head, tail) → String.length head < String.length name.
Proof.
  revert head tail. induction name as [| x name IH]; intros head tail; simpl;
    [discriminate |].
  destruct (rpartition_dot name) as [[h t] |].
  - intros [= <- <-]. simpl. specialize (IH h t eq_refl). lia.
  - destruct (Ascii.eqb x "."); [| discriminate]. intros [= <- <-]. simpl. lia.
Qed.

Lemma find_and_load_not_exhausted fuel : ∀ name w,
  String.length name ≤ fuel → name ≠ "" →
  fst (_find_and_load fuel name w) ≠ Exhausted.
Proof.
  assert (Hload : ∀ name t w, fst (load name t w) ≠ Exhausted).
  { intros name t w. unfold load. now destruct (source_body t). }
  induction fuel as [| fuel IH]; intros name w Hlen Hne.
  - destruct name; [congruence | simpl in Hlen; lia].
  - simpl. destruct (sys_modules w !! name); [discriminate |].
    unfold rpartition_head, rpartition_tail.
    destruct (rpartition_dot name) as [[head tail] |] eqn:Hsplit; simpl.
    + destruct (String.eqb_spec head "") as [-> | Hhead].
      * destruct (find_source name (sys_path w)); [apply Hload | discriminate].
      * unfold bind.
        assert (Hparent : fst (match sys_modules w !! head with
                               | Some m => (Return m, w)
                               | None => _find_and_load fuel head w
                               end) ≠ Exhausted).
        { destruct (sys_modules w !! head); [discriminate |].
          apply IH; [| exact Hhead].
          apply rpartition_head_shorter in Hsplit. lia. }
        destruct (match sys_modules w !! head with
                  | Some m => (Return m, w)
                  | None => _find_and_load fuel head w
                  end) as [[pm | e |] w1]; simpl in *; [| discriminate | congruence].
        destruct (sys_modules w1 !! name); [discriminate |].
        destruct (sys_modules w1 !! head) as [pm' |]; [| discriminate].
        destruct (mod_path pm'); [| discriminate].
        destruct (find_source tail l); [apply Hload | discriminate].
    + destruct (find_source name (sys_path w)); [apply Hload | discriminate].
Qed.

(** [importlib.import_module] always returns or raises. *)
Lemma import_module_not_exhausted name w : fst (import_module name w) ≠ Exhausted.
Proof.
  unfold import_module, bind, log, raise.
  destruct (startswith_dot name); [discriminate |].
  destruct (String.eqb_spec name ""); [discriminate |].
  now apply find_and_load_not_exhausted.
Qed.

Lemma keeps_modules_refl w : keeps_modules w w.
Proof. intros k m H. exact H. Qed.

Lemma keeps_modules_trans w w1 w2 :
  keeps_modules w w1 → keeps_modules w1 w2 → keeps_modules w w2.
Proof. intros H1 H2 k m H. now apply H2, H1. Qed.

(** The loader adds a module only under a name that has none. *)
Lemma load_keeps_modules name t w o w' :
  sys_modules w !! name = None →
  load name t w = (o, w') → keeps_modules w w'.
Proof.
  intros Hnew. unfold load.
  destruct (source_body t); intros [= _ <-]; [apply keeps_modules_refl |].
  intros k m Hk. simpl. rewrite lookup_insert_ne; [exact Hk |].
  intros <-. congruence.
Qed.

Lemma find_and_load_keeps_modules fuel : ∀ name w o w',
  _find_and_load fuel name w = (o, w') → keeps_modules w w'.
Proof.
  induction fuel as [| fuel IH]; intros name w o w'; simpl.
  - destruct (sys_modules w !! name); intros [= _ <-]; apply keeps_modules_refl.
  - destruct (sys_modules w !! name) eqn:Hname;
      [intros [= _ <-]; apply keeps_modules_refl |].
    destruct (String.eqb (rpartition_head name) "").
    + destruct (find_source name (sys_path w));
        [now apply load_keeps_modules | intros [= _ <-]; apply keeps_modules_refl].
    + unfold bind.
      destruct (match sys_modules w !! rpartition_head name with
                | Some m0 => (Return m0, w)
                | None => _find_and_load fuel (rpartition_head name) w
                end) as [o1 w1] eqn:Hparent.
      assert (H1 : keeps_modules w w1).
      { destruct (sys_modules w !! rpartition_head name).
        - injection Hparent as _ <-. apply keeps_modules_refl.
        - now apply (IH _ _ _ _ Hparent). }
      destruct o1 as [pm | e |]; [| now intros [= _ <-] | now intros [= _ <-]].
      destruct (sys_modules w1 !! name) eqn:Hname1; [now intros [= _ <-] |].
      destruct (sys_modules w1 !! rpartition_head name) as [pm' |];
        [| now intros [= _ <-]].
      destruct (mod_path pm'); [| now intros [= _ <-]].
      destruct (find_source (rpartition_tail name) l); [| now intros [= _ <-]].
      intros Hload. apply (keeps_modules_trans w w1 w'); [exact H1 |].
      now apply (load_keeps_modules name s w1 o).
Qed.

Lemma import_module_keeps_modules name o w w' :
  import_module name w = (o, w') → keeps_modules w w'.
Proof.
  unfold import_module, bind, log, raise.
  destruct (startswith_dot name); [intros [= _ <-] k m Hk; exact Hk |].
  destruct (String.eqb name ""); [intros [= _ <-] k m Hk; exact Hk |].
  intros H. apply find_and_load_keeps_modules in H.
  intros k m Hk. now apply H.
Qed.

(** ** [__import__] of a bare name *)

Lemma builtin_import_frame name o w w' :
  builtin_import name w = (o, w') → extends w [] w' ∧ keeps_modules w w'.
Proof.
  unfold builtin_import, raise.
  destruct (String.eqb name "").
  - intros [= _ <-]. split; [apply extends_refl | apply keeps_modules_refl].
  - intros H. split.
    + apply find_and_load_frame in H. unfold extends. now rewrite set_journal_same.
    + now apply find_and_load_keeps_modules in H.
Qed.

(** A dot-free name that is neither imported nor on [sys.path] cannot
    be imported, and the attempt leaves the process as it was. *)
Lemma builtin_import_missing name w :
  name ≠ "" → no_dot name = true →
  sys_modules w !! name = None → find_source name (sys_path w) = None →
  builtin_import name w = (Raise (ModuleNotFoundError (no_module_named name)), w).
Proof.
  intros Hne Hdot Hsm Hfind. unfold builtin_import.
  rewrite (proj2 (String.eqb_neq name "") Hne).
  destruct (String.length name) eqn:Hlen; [destruct name; [congruence | discriminate] |].
  simpl. rewrite Hsm. unfold rpartition_head.
  rewrite (rpartition_dot_no_dot name Hdot). simpl. now rewrite Hfind.
Qed.

(** ** Trees of sources *)

Lemma source_nested_ind (P : source → Prop) :
  (∀ name body, P (SourceModule name body)) →
  (∀ name body cs, Forall P cs → P (SourcePackage name body cs)) →
  ∀ t, P t.
Proof.
  intros Hmod Hpkg. fix IH 1. intros [name body | name body cs].
  - apply Hmod.
  - apply Hpkg. induction cs as [| c cs IHcs]; constructor; [apply IH | exact IHcs].
Qed.

(** Every module a source contributes lies at or below its name. *)
Lemma submodules_below prefix t n t' :
  In (n, t') (submodules prefix t) → below prefix (source_name t) n.
Proof.
  revert prefix. induction t as [name body | name body cs IH] using source_nested_ind;
    intros prefix; simpl.
  - intros [[= <- _] | []]. apply below_self.
  - intros [[= <- _] | Hin]; [apply below_self |].
    apply in_flat_map in Hin as (c & Hc & Hin).
    rewrite Forall_forall in IH.
    apply (below_child prefix name (source_name c)).
    apply (IH c); [now apply list_elem_of_In | exact Hin].
Qed.

Lemma submodules_of_below prefix path n t :
  In (n, t) (submodules_of prefix path) →
  ∃ c, In c path ∧ below prefix (source_name c) n.
Proof.
  intros (c & Hc & Hin)%in_flat_map. exists c. split; [exact Hc |].
  now apply submodules_below in Hin.
Qed.

Lemma existsb_eqb_false name names :
  existsb (String.eqb name) names = false → ¬ In name names.
Proof.
  intros H Hin. assert (existsb (String.eqb name) names = true); [| congruence].
  apply existsb_exists. exists name. split; [exact Hin | apply String.eqb_refl].
Qed.

(** In a listing without repeated names the finder returns the entry
    one asks for. *)
Lemma find_source_distinct path c :
  distinct (List.map source_name path) = true →
  In c path → find_source (source_name c) path = Some c.
Proof.
  unfold find_source. induction path as [| x path IH]; simpl; [tauto |].
  intros [Hx Hd]%andb_prop [-> | Hin].
  - now rewrite String.eqb_refl.
  - destruct (String.eqb_spec (source_name x) (source_name c)) as [Heq | _].
    + apply negb_true_iff, existsb_eqb_false in Hx. exfalso. apply Hx.
      rewrite Heq. now apply in_map.
    + now apply IH.
Qed.

Lemma clean_path_cons c rest :
  clean_path (c :: rest) = true →
  well_formed c = true ∧ importable c = true ∧ clean_path rest = true ∧
  ∀ c2, In c2 rest → source_name c2 ≠ source_name c.
Proof.
  unfold clean_path. simpl.
  intros [[Hx Hd]%andb_prop [[Hwf Himp]%andb_prop Hall]%andb_prop]%andb_prop.
  repeat split; try assumption.
  - now rewrite Hd, Hall.
  - intros c2 Hin Heq. apply negb_true_iff, existsb_eqb_false in Hx. apply Hx.
    rewrite <- Heq. now apply in_map.
Qed.

(** The contents of a package that is well formed and importable. *)
Lemma clean_package name body cs :
  well_formed (SourcePackage name body cs) = true →
  importable (SourcePackage name body cs) = true →
  body = None ∧ clean_path cs = true.
Proof.
  simpl. intros [_ [Hd Hwf]%andb_prop]%andb_prop [Hb Himp]%andb_prop.
  split; [now destruct body |].
  unfold clean_path. rewrite Hd. simpl.
  rewrite forallb_forall in *. intros c Hc.
  now rewrite (Hwf c Hc), (Himp c Hc).
Qed.

Lemma clean_module_body c :
  importable c = true → source_body c = None.
Proof. destruct c as [n [e |] | n [e |] cs]; simpl; intros H; try discriminate; reflexivity. Qed.

Lemma path_nesting_cons c rest :
  path_nesting (c :: rest) = Nat.max (nesting c) (path_nesting rest).
Proof. reflexivity. Qed.

Lemma nesting_package name body cs :
  nesting (SourcePackage name body cs) = S (path_nesting cs).
Proof. reflexivity. Qed.

Lemma well_formed_name c :
  well_formed c = true → no_dot (source_name c) = true ∧ source_name c ≠ "".
Proof.
  intros H.
  assert (H' : no_dot (source_name c) && negb (String.eqb (source_name c) "") = true).
  { destruct c; simpl in H; [now rewrite andb_true_r in H | now apply andb_prop in H as [? _]]. }
  apply andb_prop in H' as [Hd Hn]. split; [exact Hd |].
  apply negb_true_iff in Hn. now apply String.eqb_neq.
Qed.

Lemma clean_path_no_dot path c :
  clean_path path = true → In c path → no_dot (source_name c) = true.
Proof.
  unfold clean_path. intros [_ Hall]%andb_prop Hin.
  rewrite forallb_forall in Hall. apply Hall in Hin.
  apply andb_prop in Hin as [Hwf _].
  now apply well_formed_name in Hwf as [? _].
Qed.

(** A dotted name has a dot. *)
Lemma no_dot_dotted prefix rest : no_dot (prefix +:+ "." +:+ rest) = false.
Proof.
  induction prefix as [| x prefix IH]; [reflexivity |].
  rewrite append_cons. simpl. rewrite IH. apply andb_false_r.
Qed.

Lemma below_has_dot prefix name n : below prefix name n → no_dot n = false.
Proof. intros (r & -> & _). apply no_dot_dotted. Qed.

(** The names of the sub-packages of a well-formed tree are names of
    directories: dot-free and not empty. *)
Lemma subpackage_names_dot_free t :
  well_formed t = true →
  ∀ n, In n (subpackage_names t) → no_dot n = true ∧ n ≠ "".
Proof.
  induction t as [name body | name body cs IH] using source_nested_ind; intros Hwf n; simpl.
  - intros [].
  - intros [<- | Hin].
    + apply (well_formed_name (SourcePackage name body cs) Hwf).
    + apply in_flat_map in Hin as (c & Hc & Hin).
      simpl in Hwf. apply andb_prop in Hwf as [_ [_ Hall]%andb_prop].
      rewrite forallb_forall in Hall. rewrite Forall_forall in IH.
      apply (IH c); [now apply list_elem_of_In | now apply Hall | exact Hin].
Qed.

Lemma clean_path_names path :
  clean_path path = true →
  ∀ n, In n (flat_map subpackage_names path) → no_dot n = true ∧ n ≠ "".
Proof.
  unfold clean_path. intros [_ Hall]%andb_prop n (c & Hc & Hin)%in_flat_map.
  rewrite forallb_forall in Hall. apply Hall in Hc. apply andb_prop in Hc as [Hwf _].
  now apply (subpackage_names_dot_free c).
Qed.

Lemma bare_names_free_cons c rest w :
  bare_names_free (c :: rest) w → bare_names_free [c] w ∧ bare_names_free rest w.
Proof.
  intros H. split; intros n Hn; apply H; simpl in *; apply in_or_app.
  - left. now rewrite app_nil_r in Hn.
  - now right.
Qed.

Lemma bare_names_free_package name body cs w :
  bare_names_free [SourcePackage name body cs] w →
  (sys_modules w !! name = None ∧ find_source name (sys_path w) = None) ∧
  bare_names_free cs w.
Proof.
  intros H. split; [apply H; now left |].
  intros n Hn. apply H. simpl. right. rewrite app_nil_r. exact Hn.
Qed.

(** Imports that touch dotted names only, and leave [sys.path] alone,
    leave the bare names as free as they were. *)
Lemma bare_names_free_after path w w' :
  (∀ n, In n (flat_map subpackage_names path) → no_dot n = true) →
  sys_path w' = sys_path w →
  (∀ n, no_dot n = true → sys_modules w' !! n = sys_modules w !! n) →
  bare_names_free path w → bare_names_free path w'.
Proof.
  intros Hdot Hpath Hsame Hfree n Hn.
  rewrite Hpath, (Hsame n (Hdot n Hn)). now apply Hfree.
Qed.

(** ** The walk of [_import_submodules] *)

Lemma walked_nil prefix w : walked prefix [] w w.
Proof.
  split; [apply extends_refl |]. split; [intros n t [] | reflexivity].
Qed.

(** Walking [c] and then its later siblings is walking the listing. *)
Lemma walked_cons prefix c rest w w1 w2 :
  no_dot (source_name c) = true →
  (∀ c2, In c2 rest → no_dot (source_name c2) = true ∧ source_name c2 ≠ source_name c) →
  walked prefix [c] w w1 →
  walked prefix rest w1 w2 →
  walked prefix (c :: rest) w w2.
Proof.
  intros Hc Hrest (Hext1 & Hin1 & Hout1) (Hext2 & Hin2 & Hout2).
  simpl in Hext1. rewrite app_nil_r in Hext1.
  unfold submodules_of in Hin1. simpl in Hin1.
  split; [| split].
  - simpl. now apply (extends_trans w w1 w2).
  - intros n t Hin. unfold submodules_of in Hin. simpl in Hin.
    apply in_app_or in Hin as [Hin | Hin]; [| now apply Hin2].
    rewrite Hout2; [apply Hin1; rewrite app_nil_r; exact Hin |].
    intros c2 Hc2 Hbelow. apply submodules_below in Hin.
    destruct (Hrest c2 Hc2) as [Hdot Hne]. apply Hne.
    now apply (below_inj prefix (source_name c2) (source_name c) n).
  - intros n Hn. rewrite Hout2, Hout1; [reflexivity | |].
    + intros c' [<- | []]. apply Hn. now left.
    + intros c2 Hc2. apply Hn. now right.
Qed.

(** A walk touches dotted names only and leaves [sys.path] alone. *)
Lemma walked_keeps_bare prefix path w w' :
  walked prefix path w w' →
  sys_path w' = sys_path w ∧
  ∀ n, no_dot n = true → sys_modules w' !! n = sys_modules w !! n.
Proof.
  intros (Hext & _ & Hout). split.
  - now apply extends_fields in Hext as (_ & ? & _).
  - intros n Hn. apply Hout. intros c _ Hb. apply below_has_dot in Hb. congruence.
Qed.

Lemma walk_packages_unfold {B} fuel path prefix (body : B → string * bool → M B) acc :
  walk_packages fuel path prefix body acc
  = for_each (walk_step (descend_at fuel body) prefix body) acc path.
Proof. destruct fuel; reflexivity. Qed.

(** The turn of an entry whose own name cannot be imported is the body
    of the loop and no more: the generator drops the [ImportError] and
    goes on to the next entry. *)
Lemma walk_step_no_descent {B} descend prefix (body : B → string * bool → M B)
    acc info w acc1 w1 :
  body acc (prefix +:+ source_name info, is_pkg info) w = (Return acc1, w1) →
  (is_pkg info = true →
   ∃ e, builtin_import (prefix +:+ source_name info) w1 = (Raise e, w1) ∧
        is_ImportError e = true) →
  walk_step descend prefix body acc info w = (Return acc1, w1).
Proof.
  intros Hbody Hbare. unfold walk_step, bind. rewrite Hbody.
  destruct (is_pkg info); [| reflexivity].
  destruct (Hbare eq_refl) as (e & -> & ->). reflexivity.
Qed.

Section Walk.

Variable depth : nat.

(** The recursive calls available to the loop keep their contract. *)
Hypothesis recursive_calls : ∀ d, depth = S d → import_submodules_spec d.

(** One turn of the loop, on a source that is on the package's path. *)
Lemma loop_body_walks prefix pkg path c acc w :
  absolute prefix →
  sys_modules w !! prefix = Some pkg →
  mod_name pkg = prefix →
  mod_path pkg = Some path →
  find_source (source_name c) path = Some c →
  well_formed c = true →
  importable c = true →
  nesting c ≤ depth →
  unvisited prefix [c] w →
  bare_names_free [c] w →
  ∃ acc' w',
    loop_body (recurse_at depth) pkg true acc (source_name c, is_pkg c) w
      = (Return acc', w') ∧
    walked prefix [c] w w'.
Proof.
  intros Habs Hpkg Hname Hpath Hfind Hwf Himp Hdepth Hfresh Hbare.
  assert (Hdot : no_dot (source_name c) = true).
  { now apply well_formed_name in Hwf as [? _]. }
  set (full := prefix +:+ "." +:+ source_name c).
  assert (Himport :
    import_module full w
    = (Return (module_of full c),
       set_sys_modules (<[full := module_of full c]> (sys_modules w))
         (set_journal (journal w ++ [EvImport full]) w))).
  { apply (import_module_child prefix (source_name c) pkg path); try assumption.
    - apply (Hfresh c); [now left | apply below_self].
    - now apply clean_module_body. }
  unfold loop_body. rewrite Hname. simpl fst. fold full.
  unfold bind at 1. rewrite Himport.
  destruct c as [name body | name body cs]; simpl snd; simpl andb.
  - (* a module: nothing to descend into *)
    eexists _, _. split; [reflexivity |].
    split; [| split].
    + simpl. apply extends_import.
    + intros n t [[= <- <-] | []]. simpl. apply lookup_insert_eq.
    + intros n Hn. simpl. apply lookup_insert_ne.
      intros <-. apply (Hn (SourceModule name body)); [now left | apply below_self].
  - (* a package: the recursive call walks its contents *)
    rewrite nesting_package in Hdepth.
    destruct depth as [| d] eqn:Hd; [lia |].
    destruct (clean_package name body cs Hwf Himp) as [-> Hclean].
    set (w1 := set_sys_modules
                 (<[full := module_of full (SourcePackage name None cs)]> (sys_modules w))
                 (set_journal (journal w ++ [EvImport full]) w)).
    destruct (recursive_calls d eq_refl full cs
                (module_of full (SourcePackage name None cs)) w1
                (set_journal (journal w1 ++ [EvImport full]) w1))
      as (res & w2 & Hcall & Hext & Hin & Hout).
    + apply import_module_cached; [now apply absolute_child |].
      subst w1. simpl. apply lookup_insert_eq.
    + subst w1. simpl. apply lookup_insert_eq.
    + reflexivity.
    + reflexivity.
    + exact Hclean.
    + lia.
    + intros c' n Hc' Hbelow. subst w1. simpl.
      rewrite lookup_insert_ne; [| intros <-; now apply below_longer in Hbelow].
      apply (Hfresh (SourcePackage name None cs)); [now left |].
      now apply (below_child prefix name (source_name c')).
    + apply bare_names_free_package in Hbare as [_ Hbare].
      apply (bare_names_free_after cs w); [| reflexivity | | exact Hbare].
      * intros n Hn. now apply (clean_path_names cs Hclean) in Hn as [? _].
      * intros n Hn. subst w1. simpl. apply lookup_insert_ne.
        intros <-. unfold full in Hn. rewrite no_dot_dotted in Hn. discriminate.
    + cbn [snd is_pkg andb recurse_at]. unfold bind, ret. fold w1. rewrite Hcall.
      eexists _, w2. split; [reflexivity |].
      assert (Hsame : ∀ n, ¬ (∃ c', In c' cs ∧ below full (source_name c') n) →
                           sys_modules w2 !! n = sys_modules w1 !! n).
      { intros n Hn. rewrite Hout; [reflexivity |].
        intros c' Hc' Hb. apply Hn. now exists c'. }
      split; [| split].
      * simpl. rewrite app_nil_r.
        apply (extends_trans w w1 w2 [EvImport full]
                 (EvImport full :: flat_map (import_calls full) cs));
          [apply extends_import |].
        apply (extends_trans w1 (set_journal (journal w1 ++ [EvImport full]) w1) w2
                 [EvImport full] (flat_map (import_calls full) cs));
          [apply extends_call | exact Hext].
      * intros n t Hnt. unfold submodules_of in Hnt. simpl in Hnt.
        rewrite app_nil_r in Hnt. fold full in Hnt.
        destruct Hnt as [[= <- <-] | Hnt]; [| now apply Hin].
        rewrite Hsame; [subst w1; simpl; apply lookup_insert_eq |].
        intros (c' & _ & Hb). now apply below_longer in Hb.
      * intros n Hn.
        assert (Hnot : ¬ below prefix name n).
        { intros Hb. apply (Hn (SourcePackage name None cs)); [now left | exact Hb]. }
        rewrite Hsame.
        -- subst w1. simpl. apply lookup_insert_ne.
           intros <-. apply Hnot, below_self.
        -- intros (c' & _ & Hb). apply Hnot.
           now apply (below_child prefix name (source_name c')).
Qed.

(** One turn of the generator and the loop: the bare name of a
    sub-package cannot be imported, so the generator does not descend. *)
Lemma walk_step_walks descend prefix pkg path c acc w :
  absolute prefix →
  sys_modules w !! prefix = Some pkg →
  mod_name pkg = prefix →
  mod_path pkg = Some path →
  find_source (source_name c) path = Some c →
  well_formed c = true →
  importable c = true →
  nesting c ≤ depth →
  unvisited prefix [c] w →
  bare_names_free [c] w →
  ∃ acc' w',
    walk_step descend "" (loop_body (recurse_at depth) pkg true) acc c w
      = (Return acc', w') ∧
    walked prefix [c] w w'.
Proof.
  intros Habs Hpkg Hname Hpath Hfind Hwf Himp Hdepth Hfresh Hbare.
  destruct (loop_body_walks prefix pkg path c acc w) as (acc' & w' & Hbody & Hwalk);
    try assumption.
  exists acc', w'. split; [| exact Hwalk].
  apply walk_step_no_descent; [exact Hbody |].
  intros Hpkg'. exists (ModuleNotFoundError (no_module_named (source_name c))).
  split; [| reflexivity].
  change ("" +:+ source_name c) with (source_name c).
  destruct (well_formed_name c Hwf) as [Hdot Hne].
  destruct (walked_keeps_bare _ _ _ _ Hwalk) as [Hpath' Hsame].
  assert (Hfree : sys_modules w !! source_name c = None ∧
                  find_source (source_name c) (sys_path w) = None).
  { apply Hbare. destruct c; [discriminate Hpkg' | now left]. }
  apply builtin_import_missing; try assumption.
  - rewrite (Hsame _ Hdot). apply Hfree.
  - rewrite Hpath'. apply Hfree.
Qed.

(** The whole loop, on any tail [rest] of the package's path. *)
Lemma loop_walks descend rest : ∀ prefix pkg path acc w,
  absolute prefix →
  sys_modules w !! prefix = Some pkg →
  mod_name pkg = prefix →
  mod_path pkg = Some path →
  (∀ c, In c rest → find_source (source_name c) path = Some c) →
  clean_path rest = true →
  path_nesting rest ≤ depth →
  unvisited prefix rest w →
  bare_names_free rest w →
  ∃ acc' w',
    for_each (walk_step descend "" (loop_body (recurse_at depth) pkg true)) acc rest w
      = (Return acc', w') ∧
    walked prefix rest w w'.
Proof.
  induction rest as [| c rest IH];
    intros prefix pkg path acc w Habs Hpkg Hname Hpath Hfind Hclean Hdepth Hfresh Hbare.
  - exists acc, w. split; [reflexivity | apply walked_nil].
  - destruct (clean_path_cons c rest Hclean) as (Hwf & Himp & Hclean' & Hne).
    rewrite path_nesting_cons in Hdepth.
    destruct (bare_names_free_cons c rest w Hbare) as [Hbare1 Hbare2].
    assert (Hdot : no_dot (source_name c) = true).
    { apply (clean_path_no_dot (c :: rest)); [exact Hclean | now left]. }
    assert (Hsiblings : ∀ c2, In c2 rest →
              no_dot (source_name c2) = true ∧ source_name c2 ≠ source_name c).
    { intros c2 Hc2. split; [| now apply Hne].
      apply (clean_path_no_dot rest); assumption. }
    destruct (walk_step_walks descend prefix pkg path c acc w)
      as (acc1 & w1 & Hstep & Hwalk1); try assumption.
    { apply Hfind. now left. }
    { lia. }
    { intros c' n [<- | []] Hb. apply (Hfresh c); [now left | exact Hb]. }
    pose proof Hwalk1 as (_ & _ & Hout1).
    destruct (walked_keeps_bare _ _ _ _ Hwalk1) as [Hpath1 Hsame1].
    destruct (IH prefix pkg path acc1 w1) as (acc2 & w2 & Hloop & Hwalk2);
      try assumption.
    { rewrite Hout1; [exact Hpkg |].
      intros c' [<- | []] Hb. now apply below_longer in Hb. }
    { intros c2 Hc2. apply Hfind. now right. }
    { lia. }
    { intros c2 n Hc2 Hb. rewrite Hout1; [apply (Hfresh c2); [now right | exact Hb] |].
      intros c' [<- | []] Hb'. destruct (Hsiblings c2 Hc2) as [Hdot2 Hne2].
      apply Hne2. now apply (below_inj prefix (source_name c2) (source_name c) n). }
    { apply (bare_names_free_after rest w); try assumption.
      intros n Hn. now apply (clean_path_names rest Hclean') in Hn as [? _]. }
    exists acc2, w2. split; [| now apply (walked_cons prefix c rest w w1 w2)].
    rewrite for_each_cons. now rewrite Hstep.
Qed.

End Walk.

Lemma import_submodules_unfold depth name recursive :
  _import_submodules depth name recursive
  = (do package <- import_module name;
     match mod_path package with
     | None => ret ∅
     | Some path =>
         walk_packages depth path "" (loop_body (recurse_at depth) package recursive) ∅
     end).
Proof. destruct depth; reflexivity. Qed.

(** The loop's contract gives the function's. *)
Lemma import_submodules_from_loop d :
  (∀ d', d = S d' → import_submodules_spec d') → import_submodules_spec d.
Proof.
  intros Hrec prefix cs pkg w w0 Himport Hpkg Hname Hpath Hclean Hdepth Hfresh Hbare.
  rewrite import_submodules_unfold. unfold bind. rewrite Himport, Hpath.
  rewrite walk_packages_unfold.
  apply (loop_walks d Hrec _ cs prefix pkg cs ∅ w0); try assumption.
  - now apply import_module_returns_absolute in Himport.
  - intros c Hc. apply find_source_distinct; [| exact Hc].
    unfold clean_path in Hclean. now apply andb_prop in Hclean as [? _].
Qed.

(** [_import_submodules] keeps its contract at every depth. *)
Lemma import_submodules_walks d : import_submodules_spec d.
Proof.
  induction d as [| d IH]; apply import_submodules_from_loop.
  - intros d' H. discriminate.
  - intros d' [= <-]. exact IH.
Qed.

(** In a process that has imported the package and nothing else, no
    module below the package has been visited. *)
Lemma unvisited_after_first_import root pkg cs w :
  sys_modules w = <[root := pkg]> ∅ → unvisited root cs w.
Proof.
  intros H c n _ Hbelow. rewrite H.
  rewrite lookup_insert_ne; [apply lookup_empty |].
  intros <-. now apply below_longer in Hbelow.
Qed.

(** ** The registrar on an importable package *)




(** A sub-package whose name is also the name of a top-level package:
    when [pkgutil.walk_packages] is resumed after [custom.util] it
    imports [util], finds the top-level package of that name and walks
    it, so the loop asks for [custom.util.extra], which does not exist.
    The walk raises [ModuleNotFoundError], and the registrar prints the
    warning and returns the host's registry without the package. *)
Example name_clash_stops_the_walk :
  let w := fresh ∅ clashing_path ["dbt-py"; "compile"] in
  let r := _get_context_modules_shim dbt_modules 2 w in
  fst (_import_submodules 2 "custom" true w)
    = Raise (ModuleNotFoundError "No module named 'custom.util.extra'") ∧
  fst r = Return dbt_modules ∧
  stdout (snd r) = [warning_line] ∧
  sys_modules (snd r) !! "util"
    = Some (module_of "util" (SourcePackage "util" None [SourceModule "extra" None])) ∧
  sys_modules (snd r) !! "custom.util.a"
    = Some (module_of "custom.util.a" (SourceModule "a" None)) ∧
  journal (snd r)
    = [EvImport "custom"; EvImport "custom.util"; EvImport "custom.util";
       EvImport "custom.util.a"; EvImport "custom.util.extra"; EvPrint warning_line].
Proof. vm_compute. repeat split. Qed.

(** The same clash with [recursive=False]: the generator of
    [pkgutil.walk_packages] descends on its own, whatever the loop
    does, so the walk fails in the same way, and [custom.util.a] is
    never imported. *)
Example name_clash_without_recursion :
  let r := _import_submodules 1 "custom" false (fresh ∅ clashing_path []) in
  fst r = Raise (ModuleNotFoundError "No module named 'custom.util.extra'") ∧
  sys_modules (snd r) !! "util"
    = Some (module_of "util" (SourcePackage "util" None [SourceModule "extra" None])) ∧
  sys_modules (snd r) !! "custom.util.a" = None ∧
  journal (snd r)
    = [EvImport "custom"; EvImport "custom.util"; EvImport "custom.util.extra"].
Proof. vm_compute. repeat split. Qed.

(** What the import of the bare name raises decides how the walk goes
    on: an [ImportError] is dropped by the generator and the package is
    registered; any other exception leaves the generator, the walk and
    the registrar. *)
Example bare_import_that_raises :
  let inner := SourcePackage "custom" None [SourcePackage "util" None [SourceModule "a" None]] in
  let util e := SourcePackage "util" (Some e) [] in
  let r1 := _get_context_modules_shim dbt_modules 2
              (fresh ∅ [inner; util (OtherException "ImportError" "no helper")] []) in
  let r2 := _get_context_modules_shim dbt_modules 2
              (fresh ∅ [inner; util (OtherException "ValueError" "bad literal")] []) in
  fst r1 = Return (<["custom" := VModule (module_of "custom" inner)]> dbt_modules) ∧
  fst r2 = Raise (OtherException "ValueError" "bad literal") ∧
  stdout (snd r2) = [] ∧
  journal (snd r2)
    = [EvImport "custom"; EvImport "custom.util"; EvImport "custom.util";
       EvImport "custom.util.a"].
Proof. vm_compute. repeat split. Qed.

(** ** Witnesses on concrete processes *)

Lemma missing_package_is_not_fatal_witness :
  _get_context_modules_shim dbt_modules 0 (fresh empty_settings [] ["dbt-py"; "debug"])
  = (Return dbt_modules,
     set_shim_cache (Some dbt_modules)
       (warned (snd (import_module "custom" (fresh empty_settings [] ["dbt-py"; "debug"]))))).
Proof.
  apply (missing_package_is_not_fatal dbt_modules 0
           (fresh empty_settings [] ["dbt-py"; "debug"])
           (snd (import_module "custom" (fresh empty_settings [] ["dbt-py"; "debug"])))
           "No module named 'custom'").
  - reflexivity.
  - vm_compute. reflexivity.
Defined.

Lemma shim_is_memoized_witness :
  _get_context_modules_shim dbt_modules 2
    (set_environ (<["DBT_PY_PACKAGE_ROOT" := "elsewhere"]> ∅)
       (snd (_get_context_modules_shim dbt_modules 2 (fresh ∅ [custom_package] []))))
  = (Return (<["custom" := VModule (module_of "custom" custom_package)]> dbt_modules),
     set_environ (<["DBT_PY_PACKAGE_ROOT" := "elsewhere"]> ∅)
       (snd (_get_context_modules_shim dbt_modules 2 (fresh ∅ [custom_package] [])))).
Proof.
  apply (shim_is_memoized dbt_modules 2 (fresh ∅ [custom_package] [])).
  vm_compute. reflexivity.
Defined.

(** After [cache_clear()] the same change of the environment is seen:
    [elsewhere] is looked for, not found, and the host's registry comes
    back without the entry. *)
Example cleared_cache_sees_new_configuration :
  fst (_get_context_modules_shim dbt_modules 2
         (snd (cache_clear
                 (set_environ (<["DBT_PY_PACKAGE_ROOT" := "elsewhere"]> ∅)
                    (snd (_get_context_modules_shim dbt_modules 2
                            (fresh ∅ [custom_package] [])))))))
  = Return dbt_modules.
Proof. vm_compute. reflexivity. Qed.

Lemma shim_keeps_host_entries_witness :
  (<["datetime" := VModule (module_of "custom" custom_package)]> dbt_modules) !! "re"
  = dbt_modules !! "re".
Proof.
  apply (shim_keeps_host_entries dbt_modules 2
           (fresh (<["DBT_PY_PACKAGE_NAME" := "datetime"]> ∅) [custom_package] [])
           (snd (_get_context_modules_shim dbt_modules 2
                   (fresh (<["DBT_PY_PACKAGE_NAME" := "datetime"]> ∅) [custom_package] [])))).
  - reflexivity.
  - vm_compute. reflexivity.
  - vm_compute. discriminate.
Defined.

Lemma only_module_not_found_is_caught_witness :
  _get_context_modules_shim dbt_modules 2 (fresh ∅ [broken_package] [])
  = (Raise (OtherException "ValueError" "bad literal"),
     snd (_import_submodules 2 "custom" true (fresh ∅ [broken_package] []))).
Proof.
  apply (only_module_not_found_is_caught dbt_modules 2 (fresh ∅ [broken_package] [])).
  - reflexivity.
  - left. vm_compute. reflexivity.
  - reflexivity.
Defined.

(** The exception of a sub-module's body stops the walk where it is
    raised: the modules after it in the listing are not imported,
    nothing is printed and nothing is stored. *)
Example broken_submodule_propagates :
  let r := _get_context_modules_shim dbt_modules 2 (fresh ∅ [broken_package] []) in
  fst r = Raise (OtherException "ValueError" "bad literal") ∧
  stdout (snd r) = [] ∧
  shim_cache (snd r) = None ∧
  journal (snd r) = [EvImport "custom"; EvImport "custom.bad"] ∧
  sys_modules (snd r) !! "custom"
    = Some (module_of "custom" broken_package) ∧
  sys_modules (snd r) !! "custom.hello" = None.
Proof. vm_compute. repeat split. Qed.

(** C2 as stated, at a package that is found but cannot be imported:
    its [__init__] raises [ImportError], the import of the reference
    raises it, and so does the registrar, which therefore returns
    nothing. *)
Lemma unimportable_package_is_fatal :
  let w := fresh ∅ [failing_package] ["dbt-py"; "compile"] in
  fst (import_module (package_root w) w)
    = Raise (OtherException "ImportError" "cannot import name 'udf' from 'helpers'") ∧
  fst (_get_context_modules_shim dbt_modules 0 w)
    = Raise (OtherException "ImportError" "cannot import name 'udf' from 'helpers'") ∧
  ¬ (∃ w', _get_context_modules_shim dbt_modules 0 w = (Return dbt_modules, w')).
Proof.
  split; [vm_compute; reflexivity |]. split; [vm_compute; reflexivity |].
  intros [w' H]. apply (f_equal fst) in H. vm_compute in H. discriminate.
Qed.

(** ** The text of the warning *)

(** Whatever the package and whatever the import error, the line
    printed is the one constant [warning_line]. *)
Lemma warning_is_constant host budget w e w1 :
  shim_cache w = None →
  try_block host budget (package_root w) (package_name w) w = (Raise e, w1) →
  is_ModuleNotFoundError e = true →
  stdout (snd (_get_context_modules_shim host budget w)) = stdout w1 ++ [warning_line].
Proof.
  intros Hc H He.
  rewrite (shim_uncached host budget w Hc), (shim_body_caught host budget w e w1 H He).
  reflexivity.
Qed.

(** C5, at the input of the repository's own test (both variables
    empty, no package [custom]): the import error reads
    [No module named 'custom'], one line is printed, it carries the tag
    [Warning:] and has no line break, but neither the text of the
    import error nor the message the test looks for is in it; and for
    a configured package [my_udfs] the line does not name the package. *)
Example warning_omits_import_error :
  let w := fresh empty_settings [] ["dbt-py"; "debug"] in
  let w' := fresh (<["DBT_PY_PACKAGE_ROOT" := "my_udfs"]> ∅) [] ["dbt-py"; "debug"] in
  fst (import_module (package_root w) w)
    = Raise (ModuleNotFoundError "No module named 'custom'") ∧
  stdout (snd (_get_context_modules_shim dbt_modules 0 w)) = [warning_line] ∧
  contains "Warning:" warning_line = true ∧
  contains (String (ascii_of_nat 10) "") warning_line = false ∧
  contains "No module named 'custom'" warning_line = false ∧
  contains "DbtPyWarning: failed to import package 'custom': No module named 'custom'"
    warning_line = false ∧
  stdout (snd (_get_context_modules_shim dbt_modules 0 w')) = [warning_line] ∧
  contains "my_udfs" warning_line = false.
Proof. vm_compute. repeat split. Qed.

(** ** End to end *)

(** The first scenario of the specification: the package is missing,
    the host run succeeds; the process prints the warning and exits
    with code 0. *)
Example missing_package_exits_zero :
  let r := run_main (invoke_ok dbt_modules 0) (fresh empty_settings [] ["dbt-py"; "debug"]) in
  fst r = [ActSetHook Shim; ActInvoke ["debug"] Shim; ActExit 0] ∧
  fst (snd r) = Raise (SystemExit 0) ∧
  stdout (snd (snd r)) = [warning_line].
Proof. vm_compute. repeat split. Qed.

(** The second scenario: the package is there, the host asks for its
    whitelist and finds the package under the exposed name. *)
Example present_package_is_exposed :
  let w := fresh (<["DBT_PY_PACKAGE_NAME" := "custom_py"]> ∅) [custom_package]
             ["dbt-py"; "compile"] in
  let r := run_main (invoke_ok dbt_modules 2) w in
  fst (snd r) = Raise (SystemExit 0) ∧
  shim_cache (snd (snd r))
    = Some (<["custom_py" := VModule (module_of "custom" custom_package)]> dbt_modules).
Proof. vm_compute. repeat split. Qed.

(** * Further properties of the code *)

(** ** What a walk never undoes *)

Section Keeps.

Variable depth : nat.

(** The recursive calls available to the loop keep the contract. *)
Hypothesis recursive_calls_keep : ∀ d, depth = S d → import_submodules_keeps d.

(** One turn of the loop, however it ends. *)
Lemma loop_body_keeps pkg recursive acc info :
  keeps_acc acc (loop_body (recurse_at depth) pkg recursive acc info).
Proof.
  intros w o w1. unfold loop_body, bind.
  set (full := mod_name pkg +:+ "." +:+ fst info).
  destruct (import_module full w) as [[m | e |] wa] eqn:Himport.
  2, 3: intros [= <- <-]; exists [EvImport full];
        (split; [exact (import_module_extends _ _ _ _ Himport) |]);
        (split; [exact (import_module_keeps_modules _ _ _ _ Himport) |]);
        intros acc1 H; discriminate.
  pose proof (import_module_extends _ _ _ _ Himport) as Hext.
  pose proof (import_module_keeps_modules _ _ _ _ Himport) as Hkeep.
  pose proof (import_module_registers _ _ _ _ Himport) as Hreg.
  destruct (recursive && snd info).
  - destruct depth as [| d] eqn:Hd; unfold recurse_at.
    + unfold exhausted. intros [= <- <-]. exists [EvImport full].
      repeat split; try assumption; discriminate.
    + destruct (_import_submodules d full true wa) as [o2 wb] eqn:Hsub.
      destruct (recursive_calls_keep d eq_refl full true wa o2 wb Hsub)
        as (calls2 & Hext2 & Hkeep2 & Hres2).
      assert (Hext' : extends w (EvImport full :: EvImport full :: calls2) wb).
      { now apply (extends_trans w wa wb [EvImport full] (EvImport full :: calls2)). }
      assert (Hkeep' : keeps_modules w wb).
      { now apply (keeps_modules_trans w wa wb). }
      destruct o2 as [sub | e |]; unfold ret; intros [= <- <-];
        exists (EvImport full :: EvImport full :: calls2);
        (split; [exact Hext' |]); (split; [exact Hkeep' |]);
        intros acc1 Hacc; [| discriminate | discriminate].
      injection Hacc as <-.
      destruct (Hres2 sub eq_refl) as [Hvals Hkeys]. split.
      * intros k m' [Hk | [Hnone Hk]]%lookup_union_Some_raw.
        -- right. now apply Hvals.
        -- apply lookup_insert_Some in Hk as [[<- <-] | [Hne Hk]].
           ++ right. now apply Hkeep2.
           ++ now left.
      * intros k. rewrite dom_union_L, dom_insert_L.
        rewrite !elem_of_union, elem_of_singleton, Hkeys. simpl.
        split.
        -- intros [H | [-> | H]]; [right; right; now right | right; now left | now left].
        -- intros [H | [[= ->] | [[= ->] | H]]];
             [right; now right | right; now left | right; now left | now left].
  - unfold ret. intros [= <- <-]. exists [EvImport full].
    split; [exact Hext |]. split; [exact Hkeep |].
    intros acc1 [= <-]. split.
    + intros k m' [[<- <-] | [Hne Hk]]%lookup_insert_Some; [now right | now left].
    + intros k. rewrite dom_insert_L, elem_of_union, elem_of_singleton. simpl.
      split.
      * intros [-> | H]; [right; now left | now left].
      * intros [H | [[= ->] | []]]; [now right | now left].
Qed.

End Keeps.

(** A loop of steps that keep the contract keeps it. *)
Lemma for_each_keeps {A} (step : gmap string module → A → M (gmap string module)) l :
  (∀ acc x, keeps_acc acc (step acc x)) →
  ∀ acc, keeps_acc acc (for_each step acc l).
Proof.
  intros Hstep. induction l as [| x l IH]; intros acc w o w'.
  - simpl. unfold ret. intros [= <- <-]. exists [].
    split; [apply extends_refl |]. split; [apply keeps_modules_refl |].
    intros acc' [= <-]. split; [intros k m H; now left |].
    intros k. simpl. tauto.
  - rewrite for_each_cons.
    destruct (step acc x w) as [o1 w1] eqn:Hx.
    destruct (Hstep acc x w o1 w1 Hx) as (calls1 & Hext1 & Hkeep1 & Hres1).
    destruct o1 as [acc1 | e |].
    2, 3: intros [= <- <-]; exists calls1; repeat split; try assumption; discriminate.
    intros Hrest.
    destruct (IH acc1 w1 o w' Hrest) as (calls2 & Hext2 & Hkeep2 & Hres2).
    destruct (Hres1 acc1 eq_refl) as [Hvals1 Hkeys1].
    exists (calls1 ++ calls2).
    split; [now apply (extends_trans w w1 w') |].
    split; [now apply (keeps_modules_trans w w1 w') |].
    intros acc' ->. destruct (Hres2 acc' eq_refl) as [Hvals2 Hkeys2]. split.
    + intros k m Hk. destruct (Hvals2 k m Hk) as [H | H]; [| now right].
      destruct (Hvals1 k m H) as [H' | H']; [now left | right; now apply Hkeep2].
    + intros k. rewrite Hkeys2, Hkeys1, in_app_iff. tauto.
Qed.

(** One turn of the generator and the loop keeps the contract when the
    body of the loop and the nested generator do. *)
Lemma walk_step_keeps descend prefix body acc info :
  (∀ acc' i, keeps_acc acc' (body acc' i)) →
  (∀ yield_from, descend = Some yield_from →
     ∀ prefix' path' acc', keeps_acc acc' (yield_from prefix' path' acc')) →
  keeps_acc acc (walk_step descend prefix body acc info).
Proof.
  intros Hbody Hdescend w o w2. unfold walk_step, bind.
  destruct (body acc (prefix +:+ source_name info, is_pkg info) w) as [o1 w1] eqn:Hb.
  destruct (Hbody _ _ w o1 w1 Hb) as (calls1 & Hext1 & Hkeep1 & Hres1).
  destruct o1 as [acc1 | e |].
  2, 3: intros [= <- <-]; exists calls1; repeat split; try assumption; discriminate.
  destruct (Hres1 acc1 eq_refl) as [Hvals1 Hkeys1].
  destruct (is_pkg info).
  - destruct (builtin_import (prefix +:+ source_name info) w1) as [o' wi] eqn:Hi.
    destruct (builtin_import_frame _ _ _ _ Hi) as [Hexti Hkeepi].
    assert (Hext' : extends w calls1 wi).
    { rewrite <- (app_nil_r calls1). now apply (extends_trans w w1 wi). }
    assert (Hkeep' : keeps_modules w wi) by now apply (keeps_modules_trans w w1 wi).
    assert (Hstay : ∀ acc', Return (A := gmap string module) acc1 = Return acc' →
              (∀ k m, acc' !! k = Some m → acc !! k = Some m ∨ sys_modules wi !! k = Some m) ∧
              (∀ k, k ∈ dom acc' ↔ k ∈ dom acc ∨ In (EvImport k) calls1)).
    { intros acc' [= <-]. split; [| exact Hkeys1].
      intros k m Hk. destruct (Hvals1 k m Hk) as [H | H]; [now left | right; now apply Hkeepi]. }
    destruct o' as [m | e |].
    + destruct (sys_modules wi !! (prefix +:+ source_name info)) as [m' |].
      * destruct descend as [yield_from |].
        -- intros Hy.
           destruct (Hdescend yield_from eq_refl _ _ _ wi o w2 Hy)
             as (calls2 & Hext2 & Hkeep2 & Hres2).
           exists (calls1 ++ calls2).
           split; [now apply (extends_trans w wi w2) |].
           split; [now apply (keeps_modules_trans w wi w2) |].
           intros acc' ->. destruct (Hres2 acc' eq_refl) as [Hvals2 Hkeys2]. split.
           ++ intros k m0 Hk. destruct (Hvals2 k m0 Hk) as [H | H]; [| now right].
              destruct (Hvals1 k m0 H) as [H' | H']; [now left |].
              right. now apply Hkeep2, Hkeepi.
           ++ intros k. rewrite Hkeys2, Hkeys1, in_app_iff. tauto.
        -- intros [= <- <-]. exists calls1. repeat split; try assumption; discriminate.
      * intros [= <- <-]. exists calls1. repeat split; try assumption; discriminate.
    + destruct (is_ImportError e); intros [= <- <-]; exists calls1;
        (split; [exact Hext' |]); (split; [exact Hkeep' |]);
        [exact Hstay | discriminate].
    + intros [= <- <-]. exists calls1. repeat split; try assumption; discriminate.
  - unfold ret. intros [= <- <-]. exists calls1.
    split; [exact Hext1 |]. split; [exact Hkeep1 |]. exact Hres1.
Qed.

(** [pkgutil.walk_packages] around a body that keeps the contract. *)
Lemma walk_packages_keeps fuel body :
  (∀ acc i, keeps_acc acc (body acc i)) →
  ∀ path prefix acc, keeps_acc acc (walk_packages fuel path prefix body acc).
Proof.
  intros Hbody. induction fuel as [| fuel IH]; intros path prefix acc;
    rewrite walk_packages_unfold; apply for_each_keeps; intros acc' x;
    apply walk_step_keeps; try exact Hbody.
  - intros yield_from H. discriminate.
  - intros yield_from [= <-] prefix' path' acc''. apply IH.
Qed.

Lemma import_submodules_keeps_from_loop d :
  (∀ d', d = S d' → import_submodules_keeps d') → import_submodules_keeps d.
Proof.
  intros Hrec name recursive w o w'.
  rewrite import_submodules_unfold. unfold bind.
  destruct (import_module name w) as [[pkg | e |] w0] eqn:Himport.
  2, 3: intros [= <- <-]; exists [];
        (split; [exact (import_module_extends _ _ _ _ Himport) |]);
        (split; [exact (import_module_keeps_modules _ _ _ _ Himport) |]);
        intros res H; discriminate.
  pose proof (import_module_extends _ _ _ _ Himport) as Hext.
  pose proof (import_module_keeps_modules _ _ _ _ Himport) as Hkeep.
  destruct (mod_path pkg) as [path |].
  - intros Hloop.
    destruct (walk_packages_keeps d _ (loop_body_keeps d Hrec pkg recursive)
                path "" ∅ w0 o w' Hloop)
      as (calls & Hext' & Hkeep' & Hres).
    exists calls.
    split; [now apply (extends_trans w w0 w' [EvImport name] calls) |].
    split; [now apply (keeps_modules_trans w w0 w') |].
    intros res ->. destruct (Hres res eq_refl) as [Hvals Hkeys]. split.
    + intros k m Hk. destruct (Hvals k m Hk) as [H | H]; [| exact H].
      now rewrite lookup_empty in H.
    + intros k. rewrite Hkeys, dom_empty_L, elem_of_empty. tauto.
  - unfold ret. intros [= <- <-]. exists [].
    split; [exact Hext |]. split; [exact Hkeep |].
    intros res [= <-]. split.
    + intros k m H. now rewrite lookup_empty in H.
    + intros k. rewrite dom_empty_L, elem_of_empty. simpl. tauto.
Qed.

(** [_import_submodules] keeps the contract at every depth. *)
Lemma import_submodules_keeps_all d : import_submodules_keeps d.
Proof.
  induction d as [| d IH]; apply import_submodules_keeps_from_loop.
  - intros d' H. discriminate.
  - intros d' [= <-]. exact IH.
Qed.

(** X2: every module in the dict [_import_submodules] returns is the
    module [sys.modules] holds under the same name when it returns. *)
Theorem returned_modules_are_in_sys_modules
    (d : nat) (name : string) (recursive : bool) (w w' : world)
    (res : gmap string module) :
  _import_submodules d name recursive w = (Return res, w') →
  ∀ k m, res !! k = Some m → sys_modules w' !! k = Some m.
Proof.
  intros Hcall.
  destruct (import_submodules_keeps_all d name recursive w _ w' Hcall)
    as (calls & _ & _ & Hres).
  now destruct (Hres res eq_refl).
Qed.

Lemma returned_modules_are_in_sys_modules_witness :
  sys_modules (snd (_import_submodules 2 "custom" true (fresh ∅ [custom_package] [])))
    !! "custom.sub.b"
  = Some (module_of "custom.sub.b" (SourceModule "b" None)).
Proof.
  apply (returned_modules_are_in_sys_modules 2 "custom" true
           (fresh ∅ [custom_package] []) _
           (<["custom.sub.b" := module_of "custom.sub.b" (SourceModule "b" None)]>
              (<["custom.sub.deep.c" := module_of "custom.sub.deep.c" (SourceModule "c" None)]>
                 (<["custom.sub.deep" :=
                      module_of "custom.sub.deep"
                        (SourcePackage "deep" None [SourceModule "c" None])]>
                    (<["custom.sub" :=
                         module_of "custom.sub"
                           (SourcePackage "sub" None
                              [SourceModule "b" None;
                               SourcePackage "deep" None [SourceModule "c" None]])]>
                       (<["custom.hello" := module_of "custom.hello" (SourceModule "hello" None)]>
                          (<["custom.z" := module_of "custom.z" (SourceModule "z" None)]> ∅))))))).
  - vm_compute. reflexivity.
  - vm_compute. reflexivity.
Defined.

(** X3: the first call [_import_submodules] records is the import of
    the package itself, and the keys of the dict it returns are exactly
    the names it imported after that one. *)
Theorem returned_keys_are_the_imported_names
    (d : nat) (name : string) (recursive : bool) (w w' : world)
    (res : gmap string module) :
  _import_submodules d name recursive w = (Return res, w') →
  ∃ calls,
    journal w' = journal w ++ EvImport name :: calls ∧
    ∀ k, k ∈ dom res ↔ In (EvImport k) calls.
Proof.
  intros Hcall.
  destruct (import_submodules_keeps_all d name recursive w _ w' Hcall)
    as (calls & Hext & _ & Hres).
  exists calls. split.
  - now apply extends_fields in Hext as (_ & _ & _ & ? & _).
  - now destruct (Hres res eq_refl).
Qed.

Lemma returned_keys_are_the_imported_names_witness :
  ∃ calls,
    journal (snd (_import_submodules 0 "custom" false (fresh ∅ [shallow_package] [])))
      = [] ++ EvImport "custom" :: calls ∧
    ∀ k, k ∈ dom (<["custom.hello" := module_of "custom.hello" (SourceModule "hello" None)]>
                    (<["custom.sub" :=
                         module_of "custom.sub"
                           (SourcePackage "sub" None
                              [SourceModule "bad"
                                 (Some (OtherException "ValueError" "bad literal"))])]>
                       (∅ : gmap string module)))
         ↔ In (EvImport k) calls.
Proof.
  apply (returned_keys_are_the_imported_names 0 "custom" false
           (fresh ∅ [shallow_package] [])).
  vm_compute. reflexivity.
Defined.

(** ** The dict [_import_submodules] returns for a clean package *)

(** The names the walk imports for a source are the names of the
    modules the source contributes. *)
Lemma import_calls_submodules t : ∀ prefix n,
  In (EvImport n) (import_calls prefix t) ↔ ∃ t', In (n, t') (submodules prefix t).
Proof.
  induction t as [name body | name body cs IH] using source_nested_ind;
    intros prefix n; simpl.
  - split.
    + intros [[= <-] | []]. eexists. now left.
    + intros (t' & [[= <- _] | []]). now left.
  - rewrite Forall_forall in IH. split.
    + intros [[= <-] | [[= <-] | Hin]]; [eexists; now left | eexists; now left |].
      apply in_flat_map in Hin as (c & Hc & Hin).
      apply (IH c) in Hin as [t' Hin]; [| now apply list_elem_of_In].
      exists t'. right. apply in_flat_map. now exists c.
    + intros (t' & [[= <- _] | Hin]); [now left |].
      apply in_flat_map in Hin as (c & Hc & Hin).
      right. right. apply in_flat_map. exists c. split; [exact Hc |].
      apply (IH c); [now apply list_elem_of_In | now exists t'].
Qed.

Lemma import_calls_submodules_of prefix path n :
  In (EvImport n) (flat_map (import_calls prefix) path)
  ↔ ∃ t, In (n, t) (submodules_of prefix path).
Proof.
  unfold submodules_of. rewrite in_flat_map. split.
  - intros (c & Hc & Hin). apply import_calls_submodules in Hin as [t Hin].
    exists t. apply in_flat_map. now exists c.
  - intros (t & Hin). apply in_flat_map in Hin as (c & Hc & Hin).
    exists c. split; [exact Hc |]. apply import_calls_submodules. now exists t.
Qed.



(** ** A call that raises *)

Lemma try_block_frame host budget root name w o w1 :
  try_block host budget root name w = (o, w1) →
  ∃ calls, extends w calls w1 ∧ keeps_modules w w1.
Proof.
  unfold try_block, bind.
  destruct (_import_submodules budget root true w) as [o1 wa] eqn:Hwalk.
  destruct (import_submodules_keeps_all budget root true w o1 wa Hwalk)
    as (calls & Hext & Hkeep & _).
  destruct o1 as [res | e |]; [| intros [= _ <-]; eauto | intros [= _ <-]; eauto].
  destruct (import_module root wa) as [o2 wb] eqn:Himport.
  pose proof (import_module_extends _ _ _ _ Himport) as Hext2.
  pose proof (import_module_keeps_modules _ _ _ _ Himport) as Hkeep2.
  assert (Hext' : extends w ((EvImport root :: calls) ++ [EvImport root]) wb).
  { now apply (extends_trans w wa wb). }
  assert (Hkeep' : keeps_modules w wb) by now apply (keeps_modules_trans w wa wb).
  destruct o2 as [m | e |]; [| intros [= _ <-]; eauto | intros [= _ <-]; eauto].
  unfold log, ret. intros [= _ <-].
  exists (((EvImport root :: calls) ++ [EvImport root]) ++ [EvSetItem name]). split.
  - apply (extends_trans w wb _ _ [EvSetItem name]); [exact Hext' | apply extends_journal].
  - intros k m' Hk. simpl. now apply Hkeep'.
Qed.

(** One run of the body, however it ends, leaves the memo to the
    wrapper of [functools.cache]. *)
Lemma shim_body_frame host budget w o w' :
  shim_body host budget w = (o, w') → shim_cache w' = shim_cache w.
Proof.
  unfold shim_body, try_except_ModuleNotFoundError.
  destruct (try_block host budget (package_root w) (package_name w) w)
    as [o1 w1] eqn:Htry.
  destruct (try_block_frame _ _ _ _ _ _ _ Htry) as (calls & Hext & Hkeep).
  apply extends_fields in Hext as (_ & _ & _ & _ & Hc & _).
  destruct o1 as [r | e |]; [now intros [= _ <-] | | now intros [= _ <-]].
  destruct (is_ModuleNotFoundError e); [| now intros [= _ <-]].
  unfold except_block, bind, print, ret. intros [= _ <-]. simpl. exact Hc.
Qed.

(** X6: a call of the registrar that raises stores nothing in the memo:
    the memo is as empty as before, so the next call runs the body
    again. *)
Theorem exception_is_not_memoized
    (host : gmap string value) (budget : nat) (w w1 : world) (e : exn) :
  shim_cache w = None →
  _get_context_modules_shim host budget w = (Raise e, w1) →
  shim_cache w1 = None ∧
  _get_context_modules_shim host budget w1
  = match shim_body host budget w1 with
    | (Return modules, w') => (Return modules, set_shim_cache (Some modules) w')
    | other => other
    end.
Proof.
  intros Hc H. rewrite (shim_uncached host budget w Hc) in H.
  destruct (shim_body host budget w) as [o w'] eqn:Hbody.
  pose proof (shim_body_frame _ _ _ _ _ Hbody) as Hcache.
  destruct o as [r | e' |]; [discriminate | | discriminate].
  injection H as _ <-. rewrite Hc in Hcache.
  split; [exact Hcache | now apply shim_uncached].
Qed.

Lemma exception_is_not_memoized_witness :
  shim_cache (snd (_get_context_modules_shim dbt_modules 2 (fresh ∅ [broken_package] [])))
  = None.
Proof.
  apply (exception_is_not_memoized dbt_modules 2 (fresh ∅ [broken_package] []) _
           (OtherException "ValueError" "bad literal")).
  - reflexivity.
  - vm_compute. reflexivity.
Defined.

(** ** When the walk returns *)

(** After a walk that returned, the import of line 59 is a hit in
    [sys.modules] and the assignment is made. *)
Lemma try_block_after_walk host budget root name w res w1 :
  _import_submodules budget root true w = (Return res, w1) →
  ∃ pkg,
    sys_modules w1 !! root = Some pkg ∧
    try_block host budget root name w
    = (Return (<[name := VModule pkg]> host),
       set_journal (journal w1 ++ [EvImport root; EvSetItem name]) w1).
Proof.
  intros Hwalk. pose proof Hwalk as H.
  rewrite import_submodules_unfold in H. unfold bind in H.
  destruct (import_module root w) as [[pkg | e |] w0] eqn:Himport;
    [| discriminate | discriminate].
  pose proof (import_module_returns_absolute _ _ _ _ Himport) as Habs.
  pose proof (import_module_registers _ _ _ _ Himport) as Hroot.
  assert (Hroot1 : sys_modules w1 !! root = Some pkg).
  { destruct (mod_path pkg) as [path |].
    - destruct (walk_packages_keeps budget _
                  (loop_body_keeps budget (λ d _, import_submodules_keeps_all d) pkg true)
                  path "" ∅ w0 _ w1 H) as (calls & _ & Hkeep & _).
      now apply Hkeep.
    - unfold ret in H. now injection H as _ <-. }
  exists pkg. split; [exact Hroot1 |].
  unfold try_block, bind. rewrite Hwalk.
  rewrite (import_module_cached root pkg w1 Habs Hroot1).
  unfold log, ret. f_equal. destruct w1; simpl. now rewrite <- app_assoc.
Qed.

(** X7: whenever the walk of [_import_submodules] returns, the
    registrar returns too: the import that follows cannot fail, the
    module registered under the exposed name (replacing whatever the
    host had there) is the one [sys.modules] holds for the reference,
    and nothing is printed. *)
Theorem walk_returned_means_registered
    (host : gmap string value) (budget : nat) (w w1 : world)
    (res : gmap string module) :
  shim_cache w = None →
  _import_submodules budget (package_root w) true w = (Return res, w1) →
  ∃ pkg,
    sys_modules w1 !! package_root w = Some pkg ∧
    _get_context_modules_shim host budget w
    = (Return (<[package_name w := VModule pkg]> host),
       set_shim_cache (Some (<[package_name w := VModule pkg]> host))
         (set_journal
            (journal w1 ++ [EvImport (package_root w); EvSetItem (package_name w)]) w1)).
Proof.
  intros Hc Hwalk.
  destruct (try_block_after_walk host budget _ (package_name w) _ _ _ Hwalk)
    as (pkg & Hroot & Htry).
  exists pkg. split; [exact Hroot |].
  rewrite (shim_uncached host budget w Hc).
  now rewrite (shim_body_returned host budget w _ _ Htry).
Qed.

Lemma walk_returned_means_registered_witness :
  let w := fresh (<["DBT_PY_PACKAGE_NAME" := "re"]> ∅) [custom_package] [] in
  ∃ pkg,
    sys_modules (snd (_import_submodules 2 (package_root w) true w)) !! package_root w
      = Some pkg ∧
    fst (_get_context_modules_shim dbt_modules 2 w)
      = Return (<["re" := VModule pkg]> dbt_modules).
Proof.
  intros w.
  destruct (_import_submodules 2 (package_root w) true w) as [[res | e |] w1] eqn:Hwalk.
  - destruct (walk_returned_means_registered dbt_modules 2 w w1 res eq_refl Hwalk)
      as (pkg & Hroot & Hshim).
    exists pkg. split; [exact Hroot |]. now rewrite Hshim.
  - vm_compute in Hwalk. discriminate.
  - vm_compute in Hwalk. discriminate.
Defined.

(** X8: a reference that imports as a plain module (no [__path__]) is
    registered as it is: the walk returns the empty dict at once, the
    module is assigned under the exposed name, and beyond the import of
    the reference itself nothing is imported or printed. *)
Theorem plain_module_is_registered
    (host : gmap string value) (budget : nat) (w w0 : world) (m : module) :
  shim_cache w = None →
  import_module (package_root w) w = (Return m, w0) →
  mod_path m = None →
  _import_submodules budget (package_root w) true w = (Return ∅, w0) ∧
  _get_context_modules_shim host budget w
  = (Return (<[package_name w := VModule m]> host),
     set_shim_cache (Some (<[package_name w := VModule m]> host))
       (set_journal
          (journal w0 ++ [EvImport (package_root w); EvSetItem (package_name w)]) w0)).
Proof.
  intros Hc Himport Hpath.
  assert (Hwalk : _import_submodules budget (package_root w) true w = (Return ∅, w0)).
  { rewrite import_submodules_unfold. unfold bind. now rewrite Himport, Hpath. }
  split; [exact Hwalk |].
  destruct (try_block_after_walk host budget _ (package_name w) _ _ _ Hwalk)
    as (pkg & Hroot & Htry).
  rewrite (import_module_registers _ _ _ _ Himport) in Hroot. injection Hroot as <-.
  rewrite (shim_uncached host budget w Hc).
  now rewrite (shim_body_returned host budget w _ _ Htry).
Qed.

Lemma plain_module_is_registered_witness :
  let w := fresh ∅ [single_module] [] in
  fst (_get_context_modules_shim dbt_modules 0 w)
    = Return (<["custom" := VModule (module_of "custom" single_module)]> dbt_modules) ∧
  journal (snd (_get_context_modules_shim dbt_modules 0 w))
    = [EvImport "custom"; EvImport "custom"; EvSetItem "custom"].
Proof.
  intros w.
  destruct (plain_module_is_registered dbt_modules 0 w
              (snd (import_module (package_root w) w))
              (module_of "custom" single_module)) as [_ Hshim].
  - reflexivity.
  - vm_compute. reflexivity.
  - reflexivity.
  - rewrite Hshim. split; reflexivity.
Defined.

(** ** The walk without recursion *)

Lemma dotted_name_inj prefix c1 c2 :
  prefix +:+ "." +:+ c1 = prefix +:+ "." +:+ c2 → c1 = c2.
Proof.
  intros H. apply append_cancel_l in H. rewrite !append_cons, !append_empty_l in H.
  now injection H.
Qed.

Lemma dotted_name_longer prefix c : prefix +:+ "." +:+ c ≠ prefix.
Proof. apply (below_longer prefix c). apply below_self. Qed.

(** One turn of the loop with [recursive=False]: the import and the
    entry in the dict, whatever kind of source it is. *)
Lemma flat_loop_body recurse pkg acc name ispkg w m w1 :
  import_module (mod_name pkg +:+ "." +:+ name) w = (Return m, w1) →
  loop_body recurse pkg false acc (name, ispkg) w
  = (Return (<[mod_name pkg +:+ "." +:+ name := m]> acc), w1).
Proof. intros H. unfold loop_body, bind. simpl fst. now rewrite H. Qed.

(** The loop with [recursive=False], on any tail [rest] of the
    package's path. *)
Lemma flat_loop_walks descend recurse rest : ∀ prefix pkg path acc w,
  absolute prefix →
  sys_modules w !! prefix = Some pkg →
  mod_name pkg = prefix →
  mod_path pkg = Some path →
  (∀ c, In c rest → find_source (source_name c) path = Some c) →
  distinct (List.map source_name rest) = true →
  (∀ c, In c rest → no_dot (source_name c) = true ∧ source_body c = None) →
  (∀ c, In c rest → sys_modules w !! (prefix +:+ "." +:+ source_name c) = None) →
  (∀ c, In c rest → is_pkg c = true →
        source_name c ≠ "" ∧ sys_modules w !! source_name c = None ∧
        find_source (source_name c) (sys_path w) = None) →
  ∃ acc' w',
    for_each (walk_step descend "" (loop_body recurse pkg false)) acc rest w
      = (Return acc', w') ∧
    extends w (direct_calls prefix rest) w' ∧
    (∀ c, In c rest →
          sys_modules w' !! (prefix +:+ "." +:+ source_name c)
            = Some (module_of (prefix +:+ "." +:+ source_name c) c) ∧
          acc' !! (prefix +:+ "." +:+ source_name c)
            = Some (module_of (prefix +:+ "." +:+ source_name c) c)) ∧
    (∀ n, (∀ c, In c rest → n ≠ prefix +:+ "." +:+ source_name c) →
          sys_modules w' !! n = sys_modules w !! n ∧ acc' !! n = acc !! n).
Proof.
  induction rest as [| c rest IH];
    intros prefix pkg path acc w Habs Hpkg Hname Hpath Hfind Hdistinct Hok Hfresh Hbare.
  - exists acc, w. split; [reflexivity |]. split; [apply extends_refl |].
    split; [intros c [] | intros n _; now split].
  - simpl in Hdistinct. apply andb_prop in Hdistinct as [Hc Hdistinct].
    apply negb_true_iff, existsb_eqb_false in Hc.
    destruct (Hok c (or_introl eq_refl)) as [Hdot Hbody].
    set (full := prefix +:+ "." +:+ source_name c).
    set (w1 := set_sys_modules (<[full := module_of full c]> (sys_modules w))
                 (set_journal (journal w ++ [EvImport full]) w)).
    assert (Himport : import_module full w = (Return (module_of full c), w1)).
    { apply (import_module_child prefix (source_name c) pkg path); try assumption.
      - apply Hfresh. now left.
      - apply Hfind. now left. }
    assert (Hother : ∀ c2, In c2 rest → prefix +:+ "." +:+ source_name c2 ≠ full).
    { intros c2 Hc2 Heq. apply dotted_name_inj in Heq. apply Hc.
      rewrite <- Heq. now apply in_map. }
    assert (Hbare1 : ∀ n, no_dot n = true → sys_modules w1 !! n = sys_modules w !! n).
    { intros n Hn. subst w1. simpl. apply lookup_insert_ne.
      intros <-. unfold full in Hn. rewrite no_dot_dotted in Hn. discriminate. }
    assert (Hstep : walk_step descend "" (loop_body recurse pkg false) acc c w
                    = (Return (<[full := module_of full c]> acc), w1)).
    { apply walk_step_no_descent.
      - change ("" +:+ source_name c) with (source_name c).
        rewrite (flat_loop_body recurse pkg acc (source_name c) (is_pkg c) w
                   (module_of full c) w1); rewrite Hname; [reflexivity | exact Himport].
      - intros Hp. exists (ModuleNotFoundError (no_module_named (source_name c))).
        split; [| reflexivity].
        change ("" +:+ source_name c) with (source_name c).
        destruct (Hbare c (or_introl eq_refl) Hp) as (Hne & Hsm & Hsp).
        apply builtin_import_missing; try assumption.
        now rewrite (Hbare1 _ Hdot). }
    destruct (IH prefix pkg path (<[full := module_of full c]> acc) w1)
      as (acc' & w' & Hloop & Hext & Hin & Hout); try assumption.
    { subst w1. simpl. rewrite lookup_insert_ne; [exact Hpkg |].
      apply dotted_name_longer. }
    { intros c2 Hc2. apply Hfind. now right. }
    { intros c2 Hc2. apply Hok. now right. }
    { intros c2 Hc2. subst w1. simpl.
      rewrite lookup_insert_ne; [apply Hfresh; now right |].
      intros Heq. now apply (Hother c2 Hc2). }
    { intros c2 Hc2 Hp. destruct (Hbare c2 (or_intror Hc2) Hp) as (Hne & Hsm & Hsp).
      destruct (Hok c2 (or_intror Hc2)) as [Hdot2 _].
      split; [exact Hne |]. split; [now rewrite (Hbare1 _ Hdot2) | exact Hsp]. }
    exists acc', w'. split; [| split; [| split]].
    + rewrite for_each_cons, Hstep. exact Hloop.
    + apply (extends_trans w w1 w' [EvImport full] (direct_calls prefix rest));
        [apply extends_import | exact Hext].
    + intros c' [<- | Hc']; [| now apply Hin].
      destruct (Hout full) as [Hsm Hacc]; [intros c2 Hc2 Heq; now apply (Hother c2 Hc2) |].
      fold full. rewrite Hsm, Hacc. subst w1. simpl. now rewrite !lookup_insert_eq.
    + intros n Hn.
      destruct (Hout n) as [Hsm Hacc]; [intros c2 Hc2; apply Hn; now right |].
      rewrite Hsm, Hacc. subst w1. simpl.
      assert (full ≠ n) by (intros <-; now apply (Hn c (or_introl eq_refl))).
      now rewrite !lookup_insert_ne.
Qed.



(** ** Running again in the same process *)

Section Revisit.

Variable depth : nat.

Hypothesis recursive_calls_revisit : ∀ d, depth = S d → revisit_spec d.

(** One turn of the loop on a source that is imported already, with
    all it contains. *)
Lemma loop_body_revisits prefix pkg c acc w :
  absolute prefix →
  mod_name pkg = prefix →
  (∀ n t, In (n, t) (submodules prefix c) → sys_modules w !! n = Some (module_of n t)) →
  nesting c ≤ depth →
  well_formed c = true →
  importable c = true →
  bare_names_free [c] w →
  ∃ acc',
    loop_body (recurse_at depth) pkg true acc (source_name c, is_pkg c) w
    = (Return acc', set_journal (journal w ++ import_calls prefix c) w).
Proof.
  intros Habs Hname Hall Hdepth Hwf Himp Hbare.
  set (full := prefix +:+ "." +:+ source_name c).
  assert (Hfull : sys_modules w !! full = Some (module_of full c)).
  { apply Hall. destruct c; now left. }
  assert (Himport : import_module full w
                    = (Return (module_of full c),
                       set_journal (journal w ++ [EvImport full]) w)).
  { apply import_module_cached; [now apply absolute_child | exact Hfull]. }
  unfold loop_body. rewrite Hname. simpl fst. fold full.
  unfold bind at 1. rewrite Himport.
  destruct c as [name body | name body cs]; cbn [snd is_pkg andb].
  - eexists. reflexivity.
  - rewrite nesting_package in Hdepth.
    destruct depth as [| d] eqn:Hd; [lia |].
    destruct (clean_package name body cs Hwf Himp) as [_ Hclean].
    apply bare_names_free_package in Hbare as [_ Hbare].
    destruct (recursive_calls_revisit d eq_refl full cs
                (module_of full (SourcePackage name body cs))
                (set_journal (journal w ++ [EvImport full]) w)) as [res Hcall].
    + now apply absolute_child.
    + exact Hfull.
    + reflexivity.
    + reflexivity.
    + intros n t Hnt. simpl. apply Hall. right. exact Hnt.
    + lia.
    + exact Hclean.
    + exact Hbare.
    + unfold recurse_at, bind, ret. rewrite Hcall.
      eexists. f_equal. rewrite set_journal_twice. simpl.
      now rewrite <- app_assoc.
Qed.

Lemma loop_revisits descend rest : ∀ prefix pkg acc w,
  absolute prefix →
  mod_name pkg = prefix →
  (∀ n t, In (n, t) (submodules_of prefix rest) →
          sys_modules w !! n = Some (module_of n t)) →
  path_nesting rest ≤ depth →
  clean_path rest = true →
  bare_names_free rest w →
  ∃ acc',
    for_each (walk_step descend "" (loop_body (recurse_at depth) pkg true)) acc rest w
    = (Return acc', set_journal (journal w ++ flat_map (import_calls prefix) rest) w).
Proof.
  induction rest as [| c rest IH];
    intros prefix pkg acc w Habs Hname Hall Hdepth Hclean Hbare.
  - exists acc. simpl. unfold ret. now rewrite set_journal_same.
  - rewrite path_nesting_cons in Hdepth.
    destruct (clean_path_cons c rest Hclean) as (Hwf & Himp & Hclean' & _).
    destruct (bare_names_free_cons c rest w Hbare) as [Hbare1 Hbare2].
    destruct (loop_body_revisits prefix pkg c acc w) as [acc1 Hbody]; try assumption.
    { intros n t Hnt. apply Hall. unfold submodules_of. simpl.
      apply in_or_app. now left. }
    { lia. }
    set (w1 := set_journal (journal w ++ import_calls prefix c) w) in *.
    assert (Hstep : walk_step descend "" (loop_body (recurse_at depth) pkg true) acc c w
                    = (Return acc1, w1)).
    { apply walk_step_no_descent; [exact Hbody |].
      intros Hp. exists (ModuleNotFoundError (no_module_named (source_name c))).
      split; [| reflexivity].
      change ("" +:+ source_name c) with (source_name c).
      destruct (well_formed_name c Hwf) as [Hdot Hne].
      assert (Hfree : sys_modules w !! source_name c = None ∧
                      find_source (source_name c) (sys_path w) = None).
      { apply Hbare1. destruct c; [discriminate Hp | now left]. }
      apply builtin_import_missing; try assumption; apply Hfree. }
    destruct (IH prefix pkg acc1 w1) as [acc2 Hloop]; try assumption.
    { intros n t Hnt. simpl. apply Hall. unfold submodules_of. simpl.
      apply in_or_app. now right. }
    { lia. }
    exists acc2.
    rewrite for_each_cons, Hstep, Hloop. f_equal.
    subst w1. rewrite set_journal_twice. simpl. now rewrite <- app_assoc.
Qed.

End Revisit.

Lemma revisit_from_loop d :
  (∀ d', d = S d' → revisit_spec d') → revisit_spec d.
Proof.
  intros Hrec prefix cs pkg w Habs Hpkg Hname Hpath Hall Hdepth Hclean Hbare.
  rewrite import_submodules_unfold. unfold bind.
  rewrite (import_module_cached prefix pkg w Habs Hpkg), Hpath.
  rewrite walk_packages_unfold.
  destruct (loop_revisits d Hrec (descend_at d (loop_body (recurse_at d) pkg true))
              cs prefix pkg ∅
              (set_journal (journal w ++ [EvImport prefix]) w)) as [res Hloop];
    try assumption.
  exists res. rewrite Hloop. f_equal.
  rewrite set_journal_twice. simpl. now rewrite <- app_assoc.
Qed.

Lemma revisit_all d : revisit_spec d.
Proof.
  induction d as [| d IH]; apply revisit_from_loop.
  - intros d' H. discriminate.
  - intros d' [= <-]. exact IH.
Qed.

Lemma package_root_environ w1 w2 :
  environ w1 = environ w2 →
  package_root w1 = package_root w2 ∧ package_name w1 = package_name w2.
Proof.
  intros H. unfold package_name, package_root, environ_get_or. now rewrite H.
Qed.

(** The registrar in a process where the package and all its modules
    are imported already: every import is a hit, only the journal and
    the memo change. *)
Lemma shim_when_all_imported host budget w pkg cs :
  shim_cache w = None →
  absolute (package_root w) →
  sys_modules w !! package_root w = Some pkg →
  mod_name pkg = package_root w →
  mod_path pkg = Some cs →
  (∀ n t, In (n, t) (submodules_of (package_root w) cs) →
          sys_modules w !! n = Some (module_of n t)) →
  path_nesting cs ≤ budget →
  clean_path cs = true →
  bare_names_free cs w →
  ∃ calls,
    _get_context_modules_shim host budget w
    = (Return (<[package_name w := VModule pkg]> host),
       set_shim_cache (Some (<[package_name w := VModule pkg]> host))
         (set_journal (journal w ++ calls) w)).
Proof.
  intros Hc Habs Hpkg Hname Hpath Hall Hdepth Hclean Hbare.
  destruct (revisit_all budget (package_root w) cs pkg w) as [res Hwalk];
    try assumption.
  destruct (try_block_after_walk host budget _ (package_name w) _ _ _ Hwalk)
    as (pkg' & Hroot & Htry).
  simpl in Hroot. rewrite Hpkg in Hroot. injection Hroot as <-.
  eexists. rewrite (shim_uncached host budget w Hc).
  rewrite (shim_body_returned host budget w _ _ Htry).
  rewrite set_journal_twice. simpl. rewrite <- app_assoc. reflexivity.
Qed.



(** ** [main] is no more than the hook and the exit *)

(** X11: [main] does not run the registrar and handles no exception:
    the process ends in the world the invoker leaves when started with
    the shim bound and nothing else changed, and an exception the
    invoker raises leaves [main] as it was raised, without any exit
    code. *)
Theorem main_only_binds_and_exits (invoke : list string → M dbtRunnerResult) (w : world) :
  snd (snd (run_main invoke w)) = snd (invoke (tail (sys_argv w)) (set_hook Shim w)) ∧
  ∀ e w',
    invoke (tail (sys_argv w)) (set_hook Shim w) = (Raise e, w') →
    run_main invoke w
    = ([ActSetHook Shim; ActInvoke (tail (sys_argv w)) Shim], (Raise e, w')).
Proof.
  rewrite run_main_unfold.
  destruct (invoke (tail (sys_argv w)) (set_hook Shim w)) as [[result | e |] w1];
    (split; [reflexivity |]); intros e' w' H; try discriminate.
  now injection H as <- <-.
Qed.

Lemma main_only_binds_and_exits_witness :
  run_main (invoke_raises (OtherException "RuntimeError" "boom"))
    (fresh ∅ [custom_package] ["dbt-py"; "run"])
  = ([ActSetHook Shim; ActInvoke ["run"] Shim],
     (Raise (OtherException "RuntimeError" "boom"),
      set_hook Shim (fresh ∅ [custom_package] ["dbt-py"; "run"]))).
Proof.
  apply (proj2 (main_only_binds_and_exits
                  (invoke_raises (OtherException "RuntimeError" "boom"))
                  (fresh ∅ [custom_package] ["dbt-py"; "run"]))).
  reflexivity.
Defined.

(** ** The resolved configuration *)

(** X12: whatever the environment holds, the resolved package
    reference is either the literal [custom] or the value of its
    variable taken as it is, the resolved exposed name is either the
    resolved reference or the value of its variable taken as it is, and
    neither is ever the empty string. *)
Theorem config_is_default_or_verbatim (w : world) :
  (package_root w = "custom" ∨
   environ w !! "DBT_PY_PACKAGE_ROOT" = Some (package_root w)) ∧
  (package_name w = package_root w ∨
   environ w !! "DBT_PY_PACKAGE_NAME" = Some (package_name w)) ∧
  package_root w ≠ "" ∧
  package_name w ≠ "".
Proof.
  assert (Hget : ∀ key default,
            default ≠ "" →
            (environ_get_or key default w = default ∨
             environ w !! key = Some (environ_get_or key default w)) ∧
            environ_get_or key default w ≠ "").
  { intros key default Hd. unfold environ_get_or.
    destruct (environ w !! key) as [v |]; [| split; [now left | exact Hd]].
    destruct (String.eqb_spec v ""); [split; [now left | exact Hd] |].
    split; [now right | assumption]. }
  assert (Hroot : package_root w ≠ "").
  { unfold package_root. now apply Hget. }
  unfold package_name at 1 2 3.
  destruct (Hget "DBT_PY_PACKAGE_ROOT" "custom") as [H1 _]; [discriminate |].
  destruct (Hget "DBT_PY_PACKAGE_NAME" (package_root w) Hroot) as [H2 H3].
  repeat split; assumption.
Qed.
